(** * Order execution engine: a shallow embedding of [src/server.ts]

    The server accepts market orders over HTTP, queues them, and a worker
    routes each order to the better of two mock venues, executes a mock swap
    and reports every status change to a ledger table and to the web-socket
    observers of the order.

    Conventions of the embedding:
    - a JavaScript [number] is an IEEE-754 binary64 value, i.e. a primitive
      [float]; comparisons and arithmetic are the primitive ones;
    - a JavaScript string is a [string] whose characters are read as ASCII
      code units; [Utf16] embeds the symbol functions over lists of UTF-16
      code units, where JavaScript's case mapping differs from ASCII's, and
      the two are related on ASCII symbols;
    - the PostgreSQL table [orders] is a finite map from the primary key to
      a row, the registry [orderSockets] a finite map from order identifiers
      to insertion-ordered sets of socket handles, the Redis set
      [active_orders] a finite set;
    - asynchronous functions are run to completion one after the other: the
      embedding describes one interleaving-free execution and records every
      call to an external collaborator in a chronological trace;
    - [emitStatus] and [processor] describe the executions in which every
      awaited call to the database and to Redis resolves; [emitStatusF] and
      [processorF] embed the same source lines with an explicit rejection
      for each awaited call, and agree with them when nothing rejects;
    - retries, their delays and the [failed] event of the worker are those
      of the queue library, configured at lines 48-62 of the source. *)

From Stdlib Require Import ZArith String Ascii List Bool Floats Uint63.
From stdpp Require Import gmap strings list.

Local Open Scope Z_scope.
Local Open Scope string_scope.

(** Decimal literals denote the nearest binary64 value, as they do in
    JavaScript. *)
Set Warnings "-inexact-float".

(** ** JavaScript numbers *)

Module Js.

(** [a > b] on numbers. *)
Definition gt (a b : float) : bool := PrimFloat.ltb b a.

(** [a <= b] on numbers. *)
Definition le (a b : float) : bool := PrimFloat.leb a b.

Definition isNaN (x : float) : bool := negb (PrimFloat.eqb x x).

(** [Number.isFinite(x)] for a number [x]: neither NaN nor an infinity. *)
Definition isFinite (x : float) : bool :=
  PrimFloat.ltb (PrimFloat.abs x) PrimFloat.infinity.

(** Truthiness of a number: everything but [0], [-0] and [NaN]. *)
Definition truthyNum (x : float) : bool :=
  negb (PrimFloat.eqb x PrimFloat.zero) && negb (isNaN x).

(** Truthiness of a string: everything but the empty string. *)
Definition truthyStr (s : string) : bool :=
  match s with EmptyString => false | String _ _ => true end.

(** [x || null] for an optional number ([undefined] is falsy). *)
Definition numOrNull (x : option float) : option float :=
  match x with
  | Some v => if truthyNum v then Some v else None
  | None => None
  end.

(** [s || null] for an optional string. *)
Definition strOrNull (s : option string) : option string :=
  match s with
  | Some v => if truthyStr v then Some v else None
  | None => None
  end.

(** The number whose value is the non-negative integer [z < 2^63]. *)
Definition ofZ (z : Z) : float := PrimFloat.of_uint63 (Uint63.of_Z z).

(** [String.prototype.toUpperCase] on one ASCII code unit. *)
Definition upperChar (c : ascii) : ascii :=
  let n := nat_of_ascii c in
  if (97 <=? n)%nat && (n <=? 122)%nat then ascii_of_nat (n - 32) else c.

(** [String.prototype.toLowerCase] on one ASCII code unit. *)
Definition lowerChar (c : ascii) : ascii :=
  let n := nat_of_ascii c in
  if (65 <=? n)%nat && (n <=? 90)%nat then ascii_of_nat (n + 32) else c.

Fixpoint toUpperCase (s : string) : string :=
  match s with
  | EmptyString => EmptyString
  | String c r => String (upperChar c) (toUpperCase r)
  end.

Fixpoint toLowerCase (s : string) : string :=
  match s with
  | EmptyString => EmptyString
  | String c r => String (lowerChar c) (toLowerCase r)
  end.

(** [s.charCodeAt(i)] for every [i] in order. *)
Definition charCodes (s : string) : list Z :=
  map (fun c => Z.of_nat (nat_of_ascii c)) (list_ascii_of_string s).

(** [s.replace(/-/g, "")]. *)
Fixpoint removeDashes (s : string) : string :=
  match s with
  | EmptyString => EmptyString
  | String c r =>
      if Ascii.eqb c "-"%char then removeDashes r
      else String c (removeDashes r)
  end.

End Js.

(** ** Data model (lines 8-39 of the source) *)

Inductive OrderStatus :=
| pending | routing | building | submitted | confirmed | failed.

Inductive DexName := raydium | meteora.

#[export] Instance OrderStatus_eq_dec : EqDecision OrderStatus.
Proof. solve_decision. Defined.

#[export] Instance DexName_eq_dec : EqDecision DexName.
Proof. solve_decision. Defined.

(** [OrderType] is the one-string union ["market"]; at run time the field
    is whatever string the job carries, and the worker tests it. *)
Definition OrderType := string.

Record OrderPayload := {
  p_tokenIn : string;
  p_tokenOut : string;
  p_amount : float;
  p_type : OrderType
}.

Record OrderJobData := {
  orderId : string;
  tokenIn : string;
  tokenOut : string;
  amount : float;
  type : OrderType
}.

Record DexQuote := { price : float; fee : float }.

Record SwapResult := { txHash : string; executedPrice : float }.

(** ** The mock venue router (lines 70-124) *)

Module MockDexRouter.

(** One step of the loop of [basePrice]:
    [hash = (hash * 31 + key.charCodeAt(i)) >>> 0]. With [hash < 2^32] the
    sum is below [2^37], so the double is exact and [>>> 0] reduces it
    modulo [2^32]. *)
Definition hashStep (hash code : Z) : Z := (hash * 31 + code) mod 2 ^ 32.

Definition pairHash (key : string) : Z :=
  fold_left hashStep (Js.charCodes key) 0.

Definition basePrice (tokenIn tokenOut : string) : float :=
  let key := tokenIn ++ "-" ++ tokenOut in
  let hash := pairHash key in
  (1 + Js.ofZ (hash mod 500) / 100)%float.

Definition normalizeToken (symbol : string) : string :=
  if String.eqb (Js.toUpperCase symbol) "SOL" then "WSOL"
  else Js.toUpperCase symbol.

(** [getRaydiumQuote]; [rnd] is the value of the [Math.random()] call
    that perturbs the price (the one that sets the sleep time has no
    effect on the result). The amount is not used by the source either. *)
Definition getRaydiumQuote (rnd : float)
    (tokenIn tokenOut : string) (amount : float) : DexQuote :=
  let tIn := normalizeToken tokenIn in
  let tOut := normalizeToken tokenOut in
  let base := basePrice tIn tOut in
  {| price := (base * (0.98 + rnd * 0.04))%float; fee := 0.003%float |}.

Definition getMeteorQuote (rnd : float)
    (tokenIn tokenOut : string) (amount : float) : DexQuote :=
  let tIn := normalizeToken tokenIn in
  let tOut := normalizeToken tokenOut in
  let base := basePrice tIn tOut in
  {| price := (base * (0.97 + rnd * 0.05))%float; fee := 0.002%float |}.

(** [generateMockTxHash]; [uuid] is the value of [randomUUID()]. *)
Definition generateMockTxHash (uuid : string) : string :=
  "0x" ++ Js.removeDashes uuid.

Definition executeSwap (rnd : float) (uuid : string)
    (dex : DexName) (order : OrderJobData) (quotedPrice : float)
    : SwapResult :=
  let slippageFactor := (0.995 + rnd * 0.01)%float in
  let executedPrice := (quotedPrice * slippageFactor)%float in
  {| txHash := generateMockTxHash uuid; executedPrice := executedPrice |}.

End MockDexRouter.

(** ** Errors, the ledger and the observable world *)

(** The text of an error. The slippage error is the template
    [`Slippage too high: ${relativeDiff.toFixed(4)} > ${allowedSlippage}`];
    it is kept as the template and its two numbers, the rendering of the
    numbers being irrelevant to the control flow. *)
Inductive Message :=
| Text (s : string)
| SlippageTooHigh (relativeDiff allowedSlippage : float).

Record JsError := Error { message : Message }.

Definition truthyMsg (m : Message) : bool :=
  match m with
  | Text s => Js.truthyStr s
  | SlippageTooHigh _ _ => true
  end.

Definition msgOrNull (m : option Message) : option Message :=
  match m with
  | Some v => if truthyMsg v then Some v else None
  | None => None
  end.

(** [m || fallback] *)
Definition msgOr (m : Message) (fallback : string) : Message :=
  if truthyMsg m then m else Text fallback.

(** A row of the table [orders] (lines 186-199). *)
Record OrderRow := {
  id : string;
  row_type : string;
  token_in : string;
  token_out : string;
  row_amount : float;
  status : OrderStatus;
  dex : option DexName;
  tx_hash : option string;
  error : option Message;
  executed_price : option float;
  created_at : Z;
  updated_at : Z
}.

(** The optional argument [extra] of [emitStatus]. *)
Record Extra := {
  x_dex : option DexName;
  x_txHash : option string;
  x_error : option Message;
  x_executedPrice : option float
}.

Definition noExtra : Extra :=
  {| x_dex := None; x_txHash := None; x_error := None;
     x_executedPrice := None |}.

(** The object serialised to the observers. *)
Record StatusEvent := {
  e_orderId : string;
  e_status : OrderStatus;
  e_dex : option DexName;
  e_txHash : option string;
  e_error : option Message;
  e_executedPrice : option float;
  e_timestamp : Z
}.

(** A web socket is a handle; its [readyState] lives in the world. *)
Definition Socket := nat.

(** Calls to the external collaborators, in the order they are made. *)
Inductive Effect :=
| PgInsert (row : OrderRow)
| PgUpdate (oid : string) (st : OrderStatus) (d : option DexName)
    (tx : option string) (err : option Message) (px : option float)
| WsSend (socket : Socket) (payload : StatusEvent)
| RedisSAdd (oid : string)
| RedisSRem (oid : string)
| QueueAdd (job : OrderJobData)
| QueueBackoff (delay : Z)
| LogRouting (oid : string) (raydiumEffective meteoraEffective : float)
    (chosen : DexName)
| LogFailed (oid : string) (msg : Message).

Record World := {
  ledger : gmap string OrderRow;
  orderSockets : gmap string (list Socket);
  readyState : Socket -> nat;
  active_orders : gset string;
  waiting : list OrderJobData;
  clock : Z;
  trace : list Effect
}.

Definition setLedger (l : gmap string OrderRow) (w : World) : World :=
  {| ledger := l; orderSockets := orderSockets w; readyState := readyState w;
     active_orders := active_orders w; waiting := waiting w;
     clock := clock w; trace := trace w |}.

Definition setOrderSockets (r : gmap string (list Socket)) (w : World)
    : World :=
  {| ledger := ledger w; orderSockets := r; readyState := readyState w;
     active_orders := active_orders w; waiting := waiting w;
     clock := clock w; trace := trace w |}.

Definition setReadyState (f : Socket -> nat) (w : World) : World :=
  {| ledger := ledger w; orderSockets := orderSockets w; readyState := f;
     active_orders := active_orders w; waiting := waiting w;
     clock := clock w; trace := trace w |}.

Definition setActiveOrders (a : gset string) (w : World) : World :=
  {| ledger := ledger w; orderSockets := orderSockets w;
     readyState := readyState w; active_orders := a; waiting := waiting w;
     clock := clock w; trace := trace w |}.

Definition setWaiting (q : list OrderJobData) (w : World) : World :=
  {| ledger := ledger w; orderSockets := orderSockets w;
     readyState := readyState w; active_orders := active_orders w;
     waiting := q; clock := clock w; trace := trace w |}.

Definition record (es : list Effect) (w : World) : World :=
  {| ledger := ledger w; orderSockets := orderSockets w;
     readyState := readyState w; active_orders := active_orders w;
     waiting := waiting w; clock := clock w; trace := trace w ++ es |}.

(** ** Asynchronous code: state passing with exceptions *)

Inductive Result (A : Type) :=
| Ok (a : A)
| Throw (e : JsError).
Arguments Ok {A} a.
Arguments Throw {A} e.

Definition IO (A : Type) : Type := World -> Result A * World.

#[export] Instance IO_ret : MRet IO := fun A a w => (Ok a, w).

#[export] Instance IO_bind : MBind IO := fun A B f m w =>
  match m w with
  | (Ok a, w') => f a w'
  | (Throw e, w') => (Throw e, w')
  end.

Definition throw {A} (e : JsError) : IO A := fun w => (Throw e, w).

(** Run a world transformer as a command. *)
Definition act (f : World -> World) : IO unit := fun w => (Ok tt, f w).

Definition getWorld : IO World := fun w => (Ok w, w).

(** ** [emitStatus] (lines 128-181) *)

(** SQL [COALESCE(x, y)]. *)
Definition coalesce {A} (x y : option A) : option A :=
  match x with
  | Some v => Some v
  | None => y
  end.

(** The [SET] clause of the [UPDATE] statement, applied to the row whose
    [id] matched; [now] is the value of [NOW()]. *)
Definition applyTransition (st : OrderStatus) (d : option DexName)
    (tx : option string) (err : option Message) (px : option float)
    (now : Z) (row : OrderRow) : OrderRow :=
  {| id := id row;
     row_type := row_type row;
     token_in := token_in row;
     token_out := token_out row;
     row_amount := row_amount row;
     status := st;
     dex := coalesce d (dex row);
     tx_hash := coalesce tx (tx_hash row);
     error := coalesce err (error row);
     executed_price := coalesce px (executed_price row);
     created_at := created_at row;
     updated_at := now |}.

(** [UPDATE orders SET ... WHERE id = $1]: at most one row matches. *)
Definition pgUpdateOrder (oid : string) (st : OrderStatus)
    (d : option DexName) (tx : option string) (err : option Message)
    (px : option float) (w : World) : World :=
  record [PgUpdate oid st d tx err px]
    (setLedger (alter (applyTransition st d tx err px (clock w)) oid
                  (ledger w)) w).

(** [for (const socket of sockets) if (socket.readyState === 1)
    socket.send(JSON.stringify(payload))]. *)
Fixpoint sendEach (payload : StatusEvent) (sockets : list Socket)
    (w : World) : World :=
  match sockets with
  | [] => w
  | socket :: rest =>
      sendEach payload rest
        (if Nat.eqb (readyState w socket) 1
         then record [WsSend socket payload] w
         else w)
  end.

Definition publish (oid : string) (payload : StatusEvent) (w : World)
    : World :=
  match orderSockets w !! oid with
  | Some sockets => sendEach payload sockets w
  | None => w
  end.

Definition redisSRem (oid : string) (w : World) : World :=
  record [RedisSRem oid] (setActiveOrders (active_orders w ∖ {[oid]}) w).

Definition redisSAdd (oid : string) (w : World) : World :=
  record [RedisSAdd oid] (setActiveOrders ({[oid]} ∪ active_orders w) w).

Definition isTerminal (st : OrderStatus) : bool :=
  match st with
  | confirmed | failed => true
  | _ => false
  end.

Definition emitStatus (orderId : string) (status : OrderStatus)
    (extra : Extra) : IO unit :=
  w0 ← getWorld;
  let payload :=
    {| e_orderId := orderId;
       e_status := status;
       e_dex := x_dex extra;
       e_txHash := x_txHash extra;
       e_error := x_error extra;
       e_executedPrice := x_executedPrice extra;
       e_timestamp := clock w0 |} in
  act (pgUpdateOrder orderId status
         (x_dex extra)
         (Js.strOrNull (x_txHash extra))
         (msgOrNull (x_error extra))
         (Js.numOrNull (x_executedPrice extra)));;
  act (publish orderId payload);;
  if isTerminal status then act (redisSRem orderId) else mret tt.

(** ** The worker (lines 209-285) *)

(** The interface of [dexRouter] the worker programs against. *)
Record DexRouter := {
  getRaydiumQuote : string -> string -> float -> DexQuote;
  getMeteorQuote : string -> string -> float -> DexQuote;
  executeSwap : DexName -> OrderJobData -> float -> SwapResult
}.

(** The router of the source, for one draw of its random sources. *)
Definition mockDexRouter (rndRaydium rndMeteora rndSlippage : float)
    (uuid : string) : DexRouter :=
  {| getRaydiumQuote := MockDexRouter.getRaydiumQuote rndRaydium;
     getMeteorQuote := MockDexRouter.getMeteorQuote rndMeteora;
     executeSwap := MockDexRouter.executeSwap rndSlippage uuid |}.

Record JobReturn := {
  r_dex : DexName;
  r_txHash : string;
  r_executedPrice : float
}.

Definition effectivePrice (q : DexQuote) : float :=
  (price q * (1 - fee q))%float.

Definition bestDexOf (raydiumQuote meteoraQuote : DexQuote) : DexName :=
  let raydiumEffective := effectivePrice raydiumQuote in
  let meteoraEffective := effectivePrice meteoraQuote in
  if Js.gt meteoraEffective raydiumEffective then meteora else raydium.

Definition allowedSlippage : float := 0.01%float.

Definition relativeDiffOf (executed quoted : float) : float :=
  let diff := PrimFloat.abs (executed - quoted)%float in
  (diff / quoted)%float.

Definition withDex (d : DexName) : Extra :=
  {| x_dex := Some d; x_txHash := None; x_error := None;
     x_executedPrice := None |}.

(** The processor function of the worker: one attempt at one job. *)
Definition processor (dexRouter : DexRouter) (job : OrderJobData)
    : IO JobReturn :=
  emitStatus (orderId job) routing noExtra;;
  let raydiumQuote :=
    getRaydiumQuote dexRouter (tokenIn job) (tokenOut job) (amount job) in
  let meteoraQuote :=
    getMeteorQuote dexRouter (tokenIn job) (tokenOut job) (amount job) in
  let raydiumEffective := effectivePrice raydiumQuote in
  let meteoraEffective := effectivePrice meteoraQuote in
  let bestDex := bestDexOf raydiumQuote meteoraQuote in
  let bestQuote :=
    match bestDex with
    | meteora => meteoraQuote
    | raydium => raydiumQuote
    end in
  act (record [LogRouting (orderId job) raydiumEffective meteoraEffective
                 bestDex]);;
  emitStatus (orderId job) building (withDex bestDex);;
  if negb (String.eqb (type job) "market")
  then throw (Error (Text "Unsupported order type"))
  else
    emitStatus (orderId job) submitted (withDex bestDex);;
    let swapResult := executeSwap dexRouter bestDex job (price bestQuote) in
    let relativeDiff :=
      relativeDiffOf (executedPrice swapResult) (price bestQuote) in
    if Js.gt relativeDiff allowedSlippage
    then throw (Error (SlippageTooHigh relativeDiff allowedSlippage))
    else
      emitStatus (orderId job) confirmed
        {| x_dex := Some bestDex;
           x_txHash := Some (txHash swapResult);
           x_error := None;
           x_executedPrice := Some (executedPrice swapResult) |};;
      mret {| r_dex := bestDex;
              r_txHash := txHash swapResult;
              r_executedPrice := executedPrice swapResult |}.

(** The listener of the worker's ["failed"] event. *)
Definition onFailed (job : option OrderJobData) (err : JsError) : IO unit :=
  match job with
  | None => mret tt
  | Some job =>
      act (record [LogFailed (orderId job) (message err)]);;
      emitStatus (orderId job) failed
        {| x_dex := None; x_txHash := None;
           x_error := Some (msgOr (message err) "unknown_error");
           x_executedPrice := None |}
  end.

(** ** The job queue (lines 48-62)

    The queue is the BullMQ library; the repository only configures it.
    Its contract, as the library documents it: a job whose processor throws
    is run again until it has been attempted [attempts] times; the retry
    after the [n]-th failed attempt is delayed by [2^(n-1) * delay]
    milliseconds under the ["exponential"] backoff; the worker fires its
    ["failed"] event each time the processor throws, whether or not the job
    will be retried. *)

Definition attempts : nat := 3.
Definition backoffDelay : Z := 500.

Definition exponentialBackoff (attemptsMade : nat) : Z :=
  2 ^ (Z.of_nat attemptsMade - 1) * backoffDelay.

Inductive JobOutcome :=
| Completed (r : JobReturn)
| Failed (e : JsError).

(** [routers n] is the behaviour of the venues during attempt [n]
    (counting from [0]): their quotes and settlements differ from one
    attempt to the next. *)
Fixpoint runAttempts (retriesLeft attemptsMade : nat)
    (routers : nat -> DexRouter) (job : OrderJobData) (w : World)
    : JobOutcome * World :=
  match processor (routers attemptsMade) job w with
  | (Ok r, w1) => (Completed r, w1)
  | (Throw e, w1) =>
      match retriesLeft with
      | O => (Failed e, snd (onFailed (Some job) e w1))
      | S k =>
          let w2 :=
            record [QueueBackoff (exponentialBackoff (S attemptsMade))] w1 in
          runAttempts k (S attemptsMade) routers job
            (snd (onFailed (Some job) e w2))
      end
  end.

Definition runJob (routers : nat -> DexRouter) (job : OrderJobData)
    (w : World) : JobOutcome * World :=
  runAttempts (attempts - 1) 0 routers job w.

(** ** The HTTP and web-socket handlers (lines 292-354) *)

(** The parsed JSON body of the request. The embedding covers bodies whose
    [tokenIn] and [tokenOut] are strings or absent and whose [amount] is a
    number or absent; [b_type] is whatever the client put in a [type]
    field. *)
Record RequestBody := {
  b_tokenIn : option string;
  b_tokenOut : option string;
  b_amount : option float;
  b_type : option string
}.

Inductive Reply :=
| Reply200 (oid : string)
| Reply400 (err : string).

Definition pgInsertOrder (oid : string) (order : OrderPayload)
    (st : OrderStatus) : IO unit := fun w =>
  match ledger w !! oid with
  | Some _ =>
      (Throw (Error (Text "duplicate key value violates unique constraint")),
       w)
  | None =>
      let row :=
        {| id := oid; row_type := p_type order;
           token_in := p_tokenIn order; token_out := p_tokenOut order;
           row_amount := p_amount order; status := st;
           dex := None; tx_hash := None; error := None;
           executed_price := None;
           created_at := clock w; updated_at := clock w |} in
      (Ok tt, record [PgInsert row] (setLedger (<[oid := row]> (ledger w)) w))
  end.

Definition queueAdd (job : OrderJobData) (w : World) : World :=
  record [QueueAdd job] (setWaiting (waiting w ++ [job]) w).

(** The handler of [POST /api/orders/execute]; [uuid] is the value of
    [randomUUID()]. *)
Definition postExecute (uuid : string) (body : RequestBody) : IO Reply :=
  let tokenIn := default "" (b_tokenIn body) in
  let tokenOut := default "" (b_tokenOut body) in
  let amount := default PrimFloat.nan (b_amount body) in
  if negb (Js.truthyStr tokenIn) || negb (Js.truthyStr tokenOut)
     || negb (Js.isFinite amount) || Js.le amount 0%float
  then mret (Reply400 "invalid_order")
  else
    let orderId := uuid in
    let order :=
      {| p_tokenIn := tokenIn; p_tokenOut := tokenOut; p_amount := amount;
         p_type := "market" |} in
    pgInsertOrder orderId order pending;;
    act (redisSAdd orderId);;
    act (queueAdd {| orderId := orderId; tokenIn := p_tokenIn order;
                     tokenOut := p_tokenOut order; amount := p_amount order;
                     type := p_type order |});;
    emitStatus orderId pending noExtra;;
    mret (Reply200 orderId).

(** [Set.prototype.add] on an insertion-ordered set. *)
Definition setAdd (socket : Socket) (set : list Socket) : list Socket :=
  if decide (socket ∈ set) then set else set ++ [socket].

(** [Set.prototype.delete]. *)
Definition setDelete (socket : Socket) (set : list Socket) : list Socket :=
  filter (fun s => s ≠ socket) set.

(** The handler of [GET /api/orders/execute/ws]. *)
Definition wsConnect (queryOrderId : option string) (socket : Socket)
    (w : World) : World :=
  let orderId := default "" queryOrderId in
  if negb (Js.truthyStr orderId)
  then setReadyState (fun s => if Nat.eqb s socket then 2%nat
                               else readyState w s) w
  else
    let set := default [] (orderSockets w !! orderId) in
    setOrderSockets (<[orderId := setAdd socket set]> (orderSockets w)) w.

(** The listener of the socket's ["close"] event. *)
Definition onSocketClose (orderId : string) (socket : Socket) (w : World)
    : World :=
  match orderSockets w !! orderId with
  | None => w
  | Some current =>
      let current' := setDelete socket current in
      if Nat.eqb (length current') 0
      then setOrderSockets (delete orderId (orderSockets w)) w
      else setOrderSockets (<[orderId := current']> (orderSockets w)) w
  end.

(** The worker takes the next waiting job and runs it to its outcome. *)
Definition workNext (routers : nat -> DexRouter) (w : World)
    : option JobOutcome * World :=
  match waiting w with
  | [] => (None, w)
  | job :: rest =>
      let '(o, w') := runJob routers job (setWaiting rest w) in (Some o, w')
  end.

(** * Properties *)

Local Open Scope list_scope.

(** ** What one call of [emitStatus] does to the world *)

Definition openSockets (w : World) (sockets : list Socket) : list Socket :=
  filter (fun s => readyState w s = 1%nat) sockets.

Definition eventOf (oid : string) (st : OrderStatus) (x : Extra) (now : Z)
    : StatusEvent :=
  {| e_orderId := oid; e_status := st; e_dex := x_dex x;
     e_txHash := x_txHash x; e_error := x_error x;
     e_executedPrice := x_executedPrice x; e_timestamp := now |}.

Definition updateOf (oid : string) (st : OrderStatus) (x : Extra) : Effect :=
  PgUpdate oid st (x_dex x) (Js.strOrNull (x_txHash x))
    (msgOrNull (x_error x)) (Js.numOrNull (x_executedPrice x)).

Definition rowAfter (st : OrderStatus) (x : Extra) (now : Z) (row : OrderRow)
    : OrderRow :=
  applyTransition st (x_dex x) (Js.strOrNull (x_txHash x))
    (msgOrNull (x_error x)) (Js.numOrNull (x_executedPrice x)) now row.

(** The world after [emitStatus oid st x], written out. *)
Definition afterEmit (oid : string) (st : OrderStatus) (x : Extra)
    (w : World) : World :=
  let w1 :=
    pgUpdateOrder oid st (x_dex x) (Js.strOrNull (x_txHash x))
      (msgOrNull (x_error x)) (Js.numOrNull (x_executedPrice x)) w in
  let w2 := publish oid (eventOf oid st x (clock w)) w1 in
  if isTerminal st then redisSRem oid w2 else w2.

Lemma emitStatus_run oid st x w :
  emitStatus oid st x w = (Ok tt, afterEmit oid st x w).
Proof.
  unfold emitStatus, afterEmit, mbind, IO_bind, getWorld, act; simpl.
  destruct (isTerminal st); reflexivity.
Qed.

Section SendEach.

Variable payload : StatusEvent.

Lemma sendEach_ledger sockets w :
  ledger (sendEach payload sockets w) = ledger w.
Proof.
  revert w; induction sockets as [|s rest IH]; intros w; simpl; [done|].
  rewrite IH. by destruct (Nat.eqb _ _).
Qed.

Lemma sendEach_orderSockets sockets w :
  orderSockets (sendEach payload sockets w) = orderSockets w.
Proof.
  revert w; induction sockets as [|s rest IH]; intros w; simpl; [done|].
  rewrite IH. by destruct (Nat.eqb _ _).
Qed.

Lemma sendEach_readyState sockets w :
  readyState (sendEach payload sockets w) = readyState w.
Proof.
  revert w; induction sockets as [|s rest IH]; intros w; simpl; [done|].
  rewrite IH. by destruct (Nat.eqb _ _).
Qed.

Lemma sendEach_active_orders sockets w :
  active_orders (sendEach payload sockets w) = active_orders w.
Proof.
  revert w; induction sockets as [|s rest IH]; intros w; simpl; [done|].
  rewrite IH. by destruct (Nat.eqb _ _).
Qed.

Lemma sendEach_waiting sockets w :
  waiting (sendEach payload sockets w) = waiting w.
Proof.
  revert w; induction sockets as [|s rest IH]; intros w; simpl; [done|].
  rewrite IH. by destruct (Nat.eqb _ _).
Qed.

Lemma sendEach_clock sockets w :
  clock (sendEach payload sockets w) = clock w.
Proof.
  revert w; induction sockets as [|s rest IH]; intros w; simpl; [done|].
  rewrite IH. by destruct (Nat.eqb _ _).
Qed.

(** The loop sends to the open sockets, in the order of the set. *)
Lemma sendEach_trace sockets w :
  trace (sendEach payload sockets w)
  = trace w ++ map (fun s => WsSend s payload) (openSockets w sockets).
Proof.
  revert w; induction sockets as [|s rest IH]; intros w; simpl.
  - by rewrite app_nil_r.
  - rewrite IH. unfold openSockets. rewrite filter_cons.
    destruct (Nat.eqb_spec (readyState w s) 1) as [E|E].
    + rewrite decide_True by done. simpl.
      by rewrite <- app_assoc.
    + by rewrite decide_False by done.
Qed.

End SendEach.

Definition subscribers (w : World) (oid : string) : list Socket :=
  default [] (orderSockets w !! oid).

Lemma publish_trace oid payload w :
  trace (publish oid payload w)
  = trace w
    ++ map (fun s => WsSend s payload) (openSockets w (subscribers w oid)).
Proof.
  unfold publish, subscribers.
  destruct (orderSockets w !! oid) as [sockets|]; simpl.
  - apply sendEach_trace.
  - by rewrite app_nil_r.
Qed.

Lemma publish_ledger oid payload w : ledger (publish oid payload w) = ledger w.
Proof.
  unfold publish. destruct (orderSockets w !! oid); [|done].
  apply sendEach_ledger.
Qed.

Lemma publish_orderSockets oid payload w :
  orderSockets (publish oid payload w) = orderSockets w.
Proof.
  unfold publish. destruct (orderSockets w !! oid); [|done].
  apply sendEach_orderSockets.
Qed.

Lemma publish_readyState oid payload w :
  readyState (publish oid payload w) = readyState w.
Proof.
  unfold publish. destruct (orderSockets w !! oid); [|done].
  apply sendEach_readyState.
Qed.

Lemma publish_clock oid payload w : clock (publish oid payload w) = clock w.
Proof.
  unfold publish. destruct (orderSockets w !! oid); [|done].
  apply sendEach_clock.
Qed.

Lemma afterEmit_ledger oid st x w :
  ledger (afterEmit oid st x w)
  = alter (rowAfter st x (clock w)) oid (ledger w).
Proof.
  unfold afterEmit. destruct (isTerminal st); simpl;
    by rewrite publish_ledger.
Qed.

Lemma afterEmit_orderSockets oid st x w :
  orderSockets (afterEmit oid st x w) = orderSockets w.
Proof.
  unfold afterEmit. destruct (isTerminal st); simpl;
    by rewrite publish_orderSockets.
Qed.

Lemma afterEmit_readyState oid st x w :
  readyState (afterEmit oid st x w) = readyState w.
Proof.
  unfold afterEmit. destruct (isTerminal st); simpl;
    by rewrite publish_readyState.
Qed.

Lemma afterEmit_clock oid st x w : clock (afterEmit oid st x w) = clock w.
Proof.
  unfold afterEmit. destruct (isTerminal st); simpl;
    by rewrite publish_clock.
Qed.

Lemma afterEmit_trace oid st x w :
  trace (afterEmit oid st x w)
  = trace w
    ++ updateOf oid st x
       :: map (fun s => WsSend s (eventOf oid st x (clock w)))
            (openSockets w (subscribers w oid))
    ++ (if isTerminal st then [RedisSRem oid] else []).
Proof.
  unfold afterEmit. destruct (isTerminal st); simpl;
    rewrite publish_trace; simpl; unfold subscribers, openSockets; simpl;
    rewrite <- ?app_assoc; simpl; try done.
  by rewrite app_nil_r.
Qed.

Lemma lookup_alter_Some_row (f : OrderRow -> OrderRow)
    (m : gmap string OrderRow) k row :
  m !! k = Some row -> alter f k m !! k = Some (f row).
Proof. intros H. by rewrite lookup_alter_eq, H. Qed.

(** ** Persistence comes before notification *)

Definition sampleRow (oid : string) : OrderRow :=
  {| id := oid; row_type := "market"; token_in := "SOL";
     token_out := "USDC"; row_amount := 1.5%float; status := pending;
     dex := None; tx_hash := None; error := None; executed_price := None;
     created_at := 0; updated_at := 0 |}.

(** A world with one order ["o"] in the ledger and two registered
    observers of it: socket [1] is open, socket [2] is closed. *)
Definition sampleWorld : World :=
  {| ledger := {[ "o" := sampleRow "o" ]};
     orderSockets := {[ "o" := [1%nat; 2%nat] ]};
     readyState := fun s => if Nat.eqb s 1 then 1%nat else 3%nat;
     active_orders := {[ "o" ]};
     waiting := [];
     clock := 7;
     trace := [] |}.

(** C5. Every call of [emitStatus] first runs the ledger update and only
    then sends the event to the open observers: the trace grows by the
    update, then the sends, then (for a terminal status) the removal from
    the active set. When the order is in the ledger, the row read back after
    the call carries the status of the event and every field the event
    supplies (with a truthy value), so the event observed is persisted. *)
Theorem emitStatus_persists_before_notifying oid st x w row :
  ledger w !! oid = Some row ->
  let w' := snd (emitStatus oid st x w) in
  let ev := eventOf oid st x (clock w) in
  let row' := rowAfter st x (clock w) row in
  fst (emitStatus oid st x w) = Ok tt
  /\ trace w'
     = trace w
       ++ updateOf oid st x
          :: map (fun s => WsSend s ev) (openSockets w (subscribers w oid))
       ++ (if isTerminal st then [RedisSRem oid] else [])
  /\ ledger w' !! oid = Some row'
  /\ status row' = e_status ev
  /\ (forall d, e_dex ev = Some d -> dex row' = Some d)
  /\ (forall t, e_txHash ev = Some t -> Js.truthyStr t = true ->
        tx_hash row' = Some t)
  /\ (forall m, e_error ev = Some m -> truthyMsg m = true ->
        error row' = Some m)
  /\ (forall p, e_executedPrice ev = Some p -> Js.truthyNum p = true ->
        executed_price row' = Some p).
Proof.
  intros Hrow w' ev row'. subst w'. rewrite emitStatus_run. simpl.
  split; [done|]. split; [apply afterEmit_trace|].
  split.
  { rewrite afterEmit_ledger. by apply lookup_alter_Some_row. }
  subst ev row'. unfold rowAfter, applyTransition, eventOf; simpl.
  split; [done|].
  repeat split.
  - intros d ->. done.
  - intros t -> Ht. simpl. by rewrite Ht.
  - intros m -> Hm. simpl. by rewrite Hm.
  - intros p -> Hp. simpl. by rewrite Hp.
Qed.

Lemma emitStatus_persists_before_notifying_witness :
  ledger sampleWorld !! "o" = Some (sampleRow "o")
  /\ trace (snd (emitStatus "o" building (withDex raydium) sampleWorld))
     = [PgUpdate "o" building (Some raydium) None None None;
        WsSend 1%nat (eventOf "o" building (withDex raydium) 7)]
  /\ dex (rowAfter building (withDex raydium) 7 (sampleRow "o"))
     = Some raydium.
Proof.
  assert (H : ledger sampleWorld !! "o" = Some (sampleRow "o"))
    by reflexivity.
  split; [exact H|].
  pose proof (emitStatus_persists_before_notifying
                "o" building (withDex raydium) sampleWorld _ H)
    as (_ & Ht & _ & _ & Hd & _).
  split; [exact Ht | by apply Hd].
Defined.

(** ** The frame of a transition *)



(** ** Publishing to the observers *)

(** The reading of "every closed channel met during the publish is pruned
    from the registry": a registered socket that is not open when the event
    is published is no longer registered afterwards. *)
Definition prunesClosed (oid : string) (w w' : World) : Prop :=
  forall s, s ∈ subscribers w oid -> readyState w s <> 1%nat ->
            s ∉ subscribers w' oid.

(** C8, as stated, fails: socket [2] of [sampleWorld] is closed and
    registered under ["o"]; publishing a status for ["o"] skips it and
    leaves it in the registry. *)
Lemma emitStatus_does_not_prune :
  ~ prunesClosed "o" sampleWorld
      (snd (emitStatus "o" routing noExtra sampleWorld)).
Proof.
  intros H. specialize (H 2%nat).
  rewrite emitStatus_run in H. simpl in H.
  unfold subscribers in H. rewrite afterEmit_orderSockets in H.
  change (orderSockets sampleWorld !! "o") with (Some [1%nat; 2%nat]) in H.
  simpl in H. apply H.
  - set_solver.
  - simpl. lia.
  - set_solver.
Qed.

Lemma elem_of_setDelete (s socket : Socket) (set : list Socket) :
  s ∈ setDelete socket set <-> s ∈ set /\ s <> socket.
Proof.
  unfold setDelete. rewrite list_elem_of_filter. tauto.
Qed.

(** C8, amended. Publishing sends the event to exactly the sockets that are
    registered under the order and whose [readyState] is [1], and to
    nothing else; a registered socket that is not open is skipped, without
    an error and without anything being kept for it, and the registry is
    left as it was. A socket leaves the registry through its ["close"]
    listener only, which also drops the entry of the order once its set is
    empty. *)
Theorem publish_sends_to_open_and_close_prunes oid st x w :
  let w' := snd (emitStatus oid st x w) in
  fst (emitStatus oid st x w) = Ok tt
  /\ (exists sent,
        trace w' = trace w ++ sent
        /\ forall s p,
             WsSend s p ∈ sent
             <-> s ∈ subscribers w oid /\ readyState w s = 1%nat
                 /\ p = eventOf oid st x (clock w))
  /\ orderSockets w' = orderSockets w
  /\ (forall s,
        (s ∉ subscribers (onSocketClose oid s w') oid)
        /\ (forall s', s' <> s ->
              (s' ∈ subscribers (onSocketClose oid s w') oid
               <-> s' ∈ subscribers w oid))
        /\ orderSockets (onSocketClose oid s w') !! oid <> Some []).
Proof.
  intros w'. subst w'. rewrite emitStatus_run. simpl.
  split; [done|]. split.
  { eexists. split; [apply afterEmit_trace|].
    intros s p. rewrite elem_of_cons, elem_of_app, list_elem_of_fmap.
    unfold openSockets, updateOf. split.
    - intros [Hu|[(s0 & Heq & Hin)|Hr]].
      + discriminate Hu.
      + injection Heq as -> ->.
        apply list_elem_of_filter in Hin as [Ho Hin]. done.
      + destruct (isTerminal st); [|by apply elem_of_nil in Hr].
        apply list_elem_of_singleton in Hr. discriminate Hr.
    - intros (Hin & Ho & ->). right; left. exists s.
      split; [done|]. by apply list_elem_of_filter. }
  split; [apply afterEmit_orderSockets|].
  intros s. unfold onSocketClose, subscribers.
  rewrite afterEmit_orderSockets.
  destruct (orderSockets w !! oid) as [current|] eqn:Hcur; simpl.
  - destruct (Nat.eqb_spec (length (setDelete s current)) 0) as [Hlen|Hlen];
      simpl.
    + rewrite lookup_delete_eq. simpl.
      apply nil_length_inv in Hlen.
      split; [apply not_elem_of_nil|]. split; [|done].
      intros s' Hne. split; [by intros ?%elem_of_nil|].
      intros Hin.
      assert (s' ∈ setDelete s current) as Hd
        by (by apply elem_of_setDelete).
      rewrite Hlen in Hd. by apply elem_of_nil in Hd.
    + rewrite lookup_insert_eq. simpl.
      split; [rewrite elem_of_setDelete; tauto|].
      split.
      * intros s' Hne. rewrite elem_of_setDelete. tauto.
      * intros Heq. injection Heq as Heq. by rewrite Heq in Hlen.
  - rewrite afterEmit_orderSockets, Hcur. simpl.
    split; [apply not_elem_of_nil|]. split; [done|]. done.
Qed.

Lemma publish_sends_to_open_and_close_prunes_witness :
  orderSockets (snd (emitStatus "o" routing noExtra sampleWorld))
  = orderSockets sampleWorld
  /\ 2%nat ∉ subscribers
       (onSocketClose "o" 2%nat
          (snd (emitStatus "o" routing noExtra sampleWorld))) "o".
Proof.
  pose proof (publish_sends_to_open_and_close_prunes
                "o" routing noExtra sampleWorld) as (_ & _ & Hreg & Hclose).
  split; [exact Hreg | exact (proj1 (Hclose 2%nat))].
Defined.

(** ** Order facts of binary64 comparison *)

Module FloatOrder.

Import SpecFloat.

Lemma SFcompare_swap (f1 f2 : spec_float) :
  SFcompare f2 f1 = option_map CompOpp (SFcompare f1 f2).
Proof.
  destruct f1 as [[]|[]| |[] m1 e1], f2 as [[]|[]| |[] m2 e2]; simpl;
    try reflexivity;
    rewrite (Z.compare_antisym e1 e2);
    change (Pos.compare_cont Eq m2 m1) with (Pos.compare m2 m1);
    change (Pos.compare_cont Eq m1 m2) with (Pos.compare m1 m2);
    rewrite (Pos.compare_antisym m1 m2);
    destruct (Z.compare e1 e2), (Pos.compare m1 m2); reflexivity.
Qed.

(** [x < y] excludes [y < x]. *)
Lemma ltb_asym (x y : float) :
  PrimFloat.ltb x y = true -> PrimFloat.ltb y x = false.
Proof.
  rewrite !FloatAxioms.ltb_spec. unfold SFltb.
  rewrite (SFcompare_swap (Prim2SF x)).
  destruct (SFcompare (Prim2SF x) (Prim2SF y)) as [[]|]; simpl; congruence.
Qed.

(** [x == y] excludes [x < y] and [y < x]. *)
Lemma eqb_not_ltb (x y : float) :
  PrimFloat.eqb x y = true ->
  PrimFloat.ltb x y = false /\ PrimFloat.ltb y x = false.
Proof.
  rewrite FloatAxioms.eqb_spec, !FloatAxioms.ltb_spec. unfold SFeqb, SFltb.
  rewrite (SFcompare_swap (Prim2SF x)).
  destruct (SFcompare (Prim2SF x) (Prim2SF y)) as [[]|]; simpl;
    try congruence; auto.
Qed.

End FloatOrder.

(** ** Routing *)

Definition stubRouter (raydiumPrice meteoraPrice executed : float)
    : DexRouter :=
  {| getRaydiumQuote := fun _ _ _ =>
       {| price := raydiumPrice; fee := 0.003%float |};
     getMeteorQuote := fun _ _ _ =>
       {| price := meteoraPrice; fee := 0.002%float |};
     executeSwap := fun _ _ _ =>
       {| txHash := "0xfeed"; executedPrice := executed |} |}.

Definition sampleJob : OrderJobData :=
  {| orderId := "o"; tokenIn := "SOL"; tokenOut := "USDC";
     amount := 1.5%float; type := "market" |}.

(** ** Running a sequence of commands *)

Lemma bind_emit {B} oid st x (k : IO B) w :
  (emitStatus oid st x;; k) w = k (afterEmit oid st x w).
Proof. unfold mbind, IO_bind. by rewrite emitStatus_run. Qed.

Lemma bind_act {B} (f : World -> World) (k : IO B) w :
  (act f;; k) w = k (f w).
Proof. reflexivity. Qed.

(** ** One attempt of the worker, written out *)

Section Attempt.

Variable dexRouter : DexRouter.
Variable job : OrderJobData.
Variable w : World.

Definition quoteR : DexQuote :=
  getRaydiumQuote dexRouter (tokenIn job) (tokenOut job) (amount job).

Definition quoteM : DexQuote :=
  getMeteorQuote dexRouter (tokenIn job) (tokenOut job) (amount job).

Definition chosen : DexName := bestDexOf quoteR quoteM.

Definition chosenQuote : DexQuote :=
  match chosen with
  | meteora => quoteM
  | raydium => quoteR
  end.

Definition settled : SwapResult :=
  executeSwap dexRouter chosen job (price chosenQuote).

Definition slippage : float :=
  relativeDiffOf (executedPrice settled) (price chosenQuote).

Definition confirmedExtra : Extra :=
  {| x_dex := Some chosen; x_txHash := Some (txHash settled);
     x_error := None; x_executedPrice := Some (executedPrice settled) |}.

Definition afterRouting : World :=
  record [LogRouting (orderId job) (effectivePrice quoteR)
            (effectivePrice quoteM) chosen]
    (afterEmit (orderId job) routing noExtra w).

Definition afterBuilding : World :=
  afterEmit (orderId job) building (withDex chosen) afterRouting.

Definition afterSubmitted : World :=
  afterEmit (orderId job) submitted (withDex chosen) afterBuilding.

Definition afterConfirmed : World :=
  afterEmit (orderId job) confirmed confirmedExtra afterSubmitted.

(** The three ways an attempt can end. *)
Lemma processor_run :
  processor dexRouter job w
  = if negb (String.eqb (type job) "market")
    then (Throw (Error (Text "Unsupported order type")), afterBuilding)
    else if Js.gt slippage allowedSlippage
    then (Throw (Error (SlippageTooHigh slippage allowedSlippage)),
          afterSubmitted)
    else (Ok {| r_dex := chosen; r_txHash := txHash settled;
                r_executedPrice := executedPrice settled |},
          afterConfirmed).
Proof.
  unfold afterConfirmed, afterSubmitted, afterBuilding, afterRouting,
    confirmedExtra, slippage, settled, chosenQuote, chosen, quoteR, quoteM.
  unfold processor. cbv zeta.
  rewrite bind_emit, bind_act, bind_emit.
  destruct (negb (String.eqb (type job) "market")); [reflexivity|].
  rewrite bind_emit.
  match goal with |- context [Js.gt ?a ?b] => destruct (Js.gt a b) end;
    [reflexivity|].
  rewrite bind_emit. reflexivity.
Qed.

End Attempt.

Lemma afterEmit_trace_incl e oid st x w :
  e ∈ trace w -> e ∈ trace (afterEmit oid st x w).
Proof. rewrite afterEmit_trace. set_solver. Qed.

Lemma afterEmit_trace_update oid st x w :
  updateOf oid st x ∈ trace (afterEmit oid st x w).
Proof. rewrite afterEmit_trace. set_solver. Qed.

Lemma processor_building_trace dexRouter job w :
  updateOf (orderId job) building (withDex (chosen dexRouter job))
  ∈ trace (snd (processor dexRouter job w)).
Proof.
  rewrite processor_run.
  assert (Hb : updateOf (orderId job) building
                 (withDex (chosen dexRouter job))
               ∈ trace (afterBuilding dexRouter job w))
    by apply afterEmit_trace_update.
  destruct (negb _); cbn [snd]; [exact Hb|].
  destruct (Js.gt _ _); cbn [snd].
  - by apply afterEmit_trace_incl.
  - by do 2 apply afterEmit_trace_incl.
Qed.

(** C2. The effective price of a quote is [price * (1 - fee)]. The worker
    routes to meteora exactly when meteora's effective price is strictly
    greater than raydium's; so when raydium's is strictly greater, and also
    when the two are equal, it routes to raydium. The venue is a function of
    the two quotes, and it is the venue the worker writes with the
    [building] status. *)
Theorem routing_picks_strictly_greatest (raydiumQuote meteoraQuote : DexQuote) :
  let re := (price raydiumQuote * (1 - fee raydiumQuote))%float in
  let me := (price meteoraQuote * (1 - fee meteoraQuote))%float in
  effectivePrice raydiumQuote = re
  /\ effectivePrice meteoraQuote = me
  /\ (bestDexOf raydiumQuote meteoraQuote = meteora <-> Js.gt me re = true)
  /\ (Js.gt re me = true -> bestDexOf raydiumQuote meteoraQuote = raydium)
  /\ (PrimFloat.eqb re me = true ->
        bestDexOf raydiumQuote meteoraQuote = raydium)
  /\ (forall dexRouter job w,
        getRaydiumQuote dexRouter (tokenIn job) (tokenOut job) (amount job)
        = raydiumQuote ->
        getMeteorQuote dexRouter (tokenIn job) (tokenOut job) (amount job)
        = meteoraQuote ->
        PgUpdate (orderId job) building
          (Some (bestDexOf raydiumQuote meteoraQuote)) None None None
        ∈ trace (snd (processor dexRouter job w))).
Proof.
  intros re me. subst re me.
  split; [done|]. split; [done|].
  unfold bestDexOf, effectivePrice, Js.gt.
  split; [|split; [|split]].
  - destruct (PrimFloat.ltb _ _); split; congruence.
  - intros H. apply FloatOrder.ltb_asym in H. by rewrite H.
  - intros H. apply FloatOrder.eqb_not_ltb in H as [H _]. by rewrite H.
  - intros dexRouter job w Hr Hm.
    pose proof (processor_building_trace dexRouter job w) as Hin.
    unfold chosen, quoteR, quoteM in Hin. rewrite Hr, Hm in Hin.
    exact Hin.
Qed.

Lemma routing_picks_strictly_greatest_witness :
  bestDexOf {| price := 1%float; fee := 0.003%float |}
            {| price := 1%float; fee := 0.003%float |} = raydium
  /\ bestDexOf {| price := 2%float; fee := 0.003%float |}
               {| price := 1%float; fee := 0.002%float |} = raydium
  /\ PgUpdate "o" building (Some meteora) None None None
     ∈ trace (snd (processor (stubRouter 1 2 2) sampleJob sampleWorld)).
Proof.
  split; [|split].
  - pose proof (routing_picks_strictly_greatest
                  {| price := 1%float; fee := 0.003%float |}
                  {| price := 1%float; fee := 0.003%float |})
      as (_ & _ & _ & _ & Htie & _).
    apply Htie. reflexivity.
  - pose proof (routing_picks_strictly_greatest
                  {| price := 2%float; fee := 0.003%float |}
                  {| price := 1%float; fee := 0.002%float |})
      as (_ & _ & _ & Hgt & _).
    apply Hgt. reflexivity.
  - pose proof (routing_picks_strictly_greatest
                  {| price := 1%float; fee := 0.003%float |}
                  {| price := 2%float; fee := 0.002%float |})
      as (_ & _ & _ & _ & _ & Hw).
    apply (Hw (stubRouter 1 2 2) sampleJob sampleWorld); reflexivity.
Defined.

(** ** The statuses written for an order *)

Definition statusOfEffect (oid : string) (e : Effect) : option OrderStatus :=
  match e with
  | PgUpdate o st _ _ _ _ => if decide (o = oid) then Some st else None
  | _ => None
  end.

(** The statuses [emitStatus] was called with for order [oid], in order. *)
Definition statusesOf (oid : string) (t : list Effect) : list OrderStatus :=
  omap (statusOfEffect oid) t.

Lemma statusesOf_app oid t1 t2 :
  statusesOf oid (t1 ++ t2) = statusesOf oid t1 ++ statusesOf oid t2.
Proof. apply omap_app. Qed.

Lemma statusesOf_sends oid payload (sockets : list Socket) :
  statusesOf oid (map (fun s => WsSend s payload) sockets) = [].
Proof. induction sockets as [|s rest IH]; [done|exact IH]. Qed.

Lemma statusesOf_afterEmit o oid st x w :
  statusesOf o (trace (afterEmit oid st x w))
  = statusesOf o (trace w) ++ (if decide (oid = o) then [st] else []).
Proof.
  rewrite afterEmit_trace, statusesOf_app. f_equal.
  change (updateOf oid st x :: ?l) with ([updateOf oid st x] ++ l).
  rewrite !statusesOf_app, statusesOf_sends. simpl.
  destruct (decide (oid = o)), (isTerminal st); reflexivity.
Qed.

Lemma statusesOf_afterEmit_same oid st x w :
  statusesOf oid (trace (afterEmit oid st x w))
  = statusesOf oid (trace w) ++ [st].
Proof. rewrite statusesOf_afterEmit. by rewrite decide_True. Qed.

Section AttemptStatuses.

Variable dexRouter : DexRouter.
Variable job : OrderJobData.
Variable w : World.

Lemma statusesOf_afterRouting :
  statusesOf (orderId job) (trace (afterRouting dexRouter job w))
  = statusesOf (orderId job) (trace w) ++ [routing].
Proof.
  unfold afterRouting, record; simpl.
  rewrite statusesOf_app, statusesOf_afterEmit_same. simpl.
  by rewrite app_nil_r.
Qed.

Lemma statusesOf_afterBuilding :
  statusesOf (orderId job) (trace (afterBuilding dexRouter job w))
  = statusesOf (orderId job) (trace w) ++ [routing; building].
Proof.
  unfold afterBuilding.
  rewrite statusesOf_afterEmit_same, statusesOf_afterRouting.
  by rewrite <- app_assoc.
Qed.

Lemma statusesOf_afterSubmitted :
  statusesOf (orderId job) (trace (afterSubmitted dexRouter job w))
  = statusesOf (orderId job) (trace w) ++ [routing; building; submitted].
Proof.
  unfold afterSubmitted.
  rewrite statusesOf_afterEmit_same, statusesOf_afterBuilding.
  by rewrite <- app_assoc.
Qed.

Lemma statusesOf_afterConfirmed :
  statusesOf (orderId job) (trace (afterConfirmed dexRouter job w))
  = statusesOf (orderId job) (trace w)
    ++ [routing; building; submitted; confirmed].
Proof.
  unfold afterConfirmed.
  rewrite statusesOf_afterEmit_same, statusesOf_afterSubmitted.
  by rewrite <- app_assoc.
Qed.

End AttemptStatuses.

(** ** The slippage check *)

Definition marketJob (oid tIn tOut : string) (amt : float) : OrderJobData :=
  {| orderId := oid; tokenIn := tIn; tokenOut := tOut; amount := amt;
     type := "market" |}.

(** C3. For a market order, let [q] be the price of the chosen quote and
    [r] the executed price of the swap. The worker computes
    [|r - q| / q]; when that value exceeds [0.01] the attempt throws the
    slippage error after [submitted] and never writes [confirmed];
    otherwise it writes [confirmed] with the settlement hash and [r],
    sends that event to the open observers and returns them. With [q = 1]
    the attempt fails for [r = 1.012] and confirms for [r = 1.008]. *)
Theorem slippage_check_decides dexRouter oid tIn tOut amt w :
  let job := marketJob oid tIn tOut amt in
  let q := price (chosenQuote dexRouter job) in
  let r := executedPrice (settled dexRouter job) in
  let tx := txHash (settled dexRouter job) in
  let venue := chosen dexRouter job in
  let rel := (PrimFloat.abs (r - q) / q)%float in
  let out := processor dexRouter job w in
  (Js.gt rel 0.01 = true ->
     fst out = Throw (Error (SlippageTooHigh rel 0.01))
     /\ statusesOf oid (trace (snd out))
        = statusesOf oid (trace w) ++ [routing; building; submitted])
  /\ (Js.gt rel 0.01 = false ->
        fst out = Ok {| r_dex := venue; r_txHash := tx;
                        r_executedPrice := r |}
        /\ statusesOf oid (trace (snd out))
           = statusesOf oid (trace w)
             ++ [routing; building; submitted; confirmed]
        /\ exists before after,
             trace (snd out)
             = before
               ++ PgUpdate oid confirmed (Some venue)
                    (Js.strOrNull (Some tx)) None (Js.numOrNull (Some r))
                  :: map (fun s =>
                            WsSend s
                              {| e_orderId := oid; e_status := confirmed;
                                 e_dex := Some venue; e_txHash := Some tx;
                                 e_error := None;
                                 e_executedPrice := Some r;
                                 e_timestamp := clock w |})
                       (openSockets w (subscribers w oid))
               ++ after)
  /\ fst (processor (stubRouter 1 0.5 1.012) sampleJob sampleWorld)
     = Throw (Error (SlippageTooHigh
                       (PrimFloat.abs (1.012 - 1) / 1)%float 0.01))
  /\ fst (processor (stubRouter 1 0.5 1.008) sampleJob sampleWorld)
     = Ok {| r_dex := raydium; r_txHash := "0xfeed";
             r_executedPrice := 1.008 |}.
Proof.
  intros job q r tx venue rel out.
  assert (Hrel : rel = slippage dexRouter job) by reflexivity.
  assert (Hout : out
                 = if Js.gt rel 0.01
                   then (Throw (Error (SlippageTooHigh rel 0.01)),
                         afterSubmitted dexRouter job w)
                   else (Ok {| r_dex := venue; r_txHash := tx;
                               r_executedPrice := r |},
                         afterConfirmed dexRouter job w)).
  { subst out. rewrite processor_run. rewrite Hrel. reflexivity. }
  split; [|split; [|split]].
  - intros Hgt. rewrite Hout, Hgt. cbn [fst snd]. split; [done|].
    apply (statusesOf_afterSubmitted dexRouter job w).
  - intros Hle. rewrite Hout, Hle. cbn [fst snd]. split; [done|].
    split; [apply (statusesOf_afterConfirmed dexRouter job w)|].
    unfold afterConfirmed. eexists _, _.
    rewrite afterEmit_trace.
    unfold afterSubmitted, afterBuilding, afterRouting, subscribers,
      openSockets.
    rewrite !afterEmit_clock, !afterEmit_orderSockets. cbn [clock record
      orderSockets readyState].
    rewrite !afterEmit_clock, !afterEmit_orderSockets,
      !afterEmit_readyState. cbn [clock record orderSockets readyState].
    rewrite !afterEmit_readyState.
    reflexivity.
  - vm_compute. reflexivity.
  - vm_compute. reflexivity.
Qed.

Lemma slippage_check_decides_witness :
  fst (processor (stubRouter 1 0.5 1.012) sampleJob sampleWorld)
  = Throw (Error (SlippageTooHigh
                    (PrimFloat.abs (1.012 - 1) / 1)%float 0.01))
  /\ statusesOf "o"
       (trace (snd (processor (stubRouter 1 0.5 1.008) sampleJob
                      sampleWorld)))
     = [routing; building; submitted; confirmed].
Proof.
  pose proof (slippage_check_decides (stubRouter 1 0.5 1.012)
                "o" "SOL" "USDC" 1.5%float sampleWorld)
    as (Hfail & _ & _ & _).
  pose proof (slippage_check_decides (stubRouter 1 0.5 1.008)
                "o" "SOL" "USDC" 1.5%float sampleWorld)
    as (_ & Hok & _ & _).
  split.
  - apply Hfail. reflexivity.
  - apply Hok. reflexivity.
Defined.

(** ** Token symbols and the base price *)

Definition code (c : ascii) : nat := nat_of_ascii c.

(** [b] is [a], or the same ASCII letter in the other case. *)
Definition caseVariantChar (a b : ascii) : bool :=
  Ascii.eqb a b
  || ((65 <=? code a)%nat && (code a <=? 90)%nat
      && Nat.eqb (code b) (code a + 32))
  || ((97 <=? code a)%nat && (code a <=? 122)%nat
      && Nat.eqb (code b) (code a - 32)).

(** Two symbols that differ in the case of their letters only. *)
Fixpoint caseVariant (s t : string) : bool :=
  match s, t with
  | EmptyString, EmptyString => true
  | String a s', String b t' => caseVariantChar a b && caseVariant s' t'
  | _, _ => false
  end.

Lemma upperChar_caseVariantChar a b :
  caseVariantChar a b = true -> Js.upperChar a = Js.upperChar b.
Proof.
  unfold caseVariantChar, code. intros H.
  apply orb_true_iff in H as [H|H]; [apply orb_true_iff in H as [H|H]|].
  - apply Ascii.eqb_eq in H. by subst.
  - apply andb_true_iff in H as [H Hb]. apply andb_true_iff in H as [H1 H2].
    apply Nat.leb_le in H1, H2. apply Nat.eqb_eq in Hb.
    unfold Js.upperChar. rewrite Hb.
    replace ((97 <=? nat_of_ascii a)%nat) with false
      by (symmetry; apply Nat.leb_gt; lia).
    replace ((97 <=? nat_of_ascii a + 32)%nat) with true
      by (symmetry; apply Nat.leb_le; lia).
    replace ((nat_of_ascii a + 32 <=? 122)%nat) with true
      by (symmetry; apply Nat.leb_le; lia).
    simpl. replace (nat_of_ascii a + 32 - 32)%nat with (nat_of_ascii a)
      by lia.
    by rewrite ascii_nat_embedding.
  - apply andb_true_iff in H as [H Hb]. apply andb_true_iff in H as [H1 H2].
    apply Nat.leb_le in H1, H2. apply Nat.eqb_eq in Hb.
    unfold Js.upperChar. rewrite Hb.
    replace ((97 <=? nat_of_ascii a)%nat) with true
      by (symmetry; apply Nat.leb_le; lia).
    replace ((nat_of_ascii a <=? 122)%nat) with true
      by (symmetry; apply Nat.leb_le; lia).
    replace ((97 <=? nat_of_ascii a - 32)%nat) with false
      by (symmetry; apply Nat.leb_gt; lia).
    simpl. rewrite <- Hb. by rewrite ascii_nat_embedding.
Qed.

Lemma toUpperCase_caseVariant s t :
  caseVariant s t = true -> Js.toUpperCase s = Js.toUpperCase t.
Proof.
  revert t; induction s as [|a s IH]; intros [|b t]; simpl; try done.
  intros H. apply andb_true_iff in H as [Hc Hr].
  by rewrite (upperChar_caseVariantChar _ _ Hc), (IH _ Hr).
Qed.

Lemma normalizeToken_caseVariant s t :
  caseVariant s t = true ->
  MockDexRouter.normalizeToken s = MockDexRouter.normalizeToken t.
Proof.
  intros H. unfold MockDexRouter.normalizeToken.
  by rewrite (toUpperCase_caseVariant _ _ H).
Qed.

(** Both quote operations multiply their noise factor with the same
    base price, [basePrice] of the two normalized symbols, whatever the
    random draw. Symbols that differ only in letter case normalize to the
    same symbol, hence give the same base price and the same quotes; and a
    symbol that is [SOL] in any case normalizes to [WSOL], as [WSOL] itself
    does, on either side of the pair. *)
Lemma basePrice_ignores_case_and_sol_alias
    (a a' b b' : string) (rnd amt : float) :
  caseVariant a a' = true -> caseVariant b b' = true ->
  let base :=
    MockDexRouter.basePrice (MockDexRouter.normalizeToken a)
      (MockDexRouter.normalizeToken b) in
  price (MockDexRouter.getRaydiumQuote rnd a b amt)
  = (base * (0.98 + rnd * 0.04))%float
  /\ price (MockDexRouter.getMeteorQuote rnd a b amt)
     = (base * (0.97 + rnd * 0.05))%float
  /\ MockDexRouter.basePrice (MockDexRouter.normalizeToken a')
       (MockDexRouter.normalizeToken b') = base
  /\ MockDexRouter.getRaydiumQuote rnd a' b' amt
     = MockDexRouter.getRaydiumQuote rnd a b amt
  /\ MockDexRouter.getMeteorQuote rnd a' b' amt
     = MockDexRouter.getMeteorQuote rnd a b amt
  /\ (caseVariant a "SOL" = true ->
        MockDexRouter.normalizeToken a = "WSOL"
        /\ base = MockDexRouter.basePrice
                    (MockDexRouter.normalizeToken "WSOL")
                    (MockDexRouter.normalizeToken b))
  /\ (caseVariant b "SOL" = true ->
        MockDexRouter.normalizeToken b = "WSOL"
        /\ base = MockDexRouter.basePrice
                    (MockDexRouter.normalizeToken a)
                    (MockDexRouter.normalizeToken "WSOL")).
Proof.
  intros Ha Hb base. subst base.
  unfold MockDexRouter.getRaydiumQuote, MockDexRouter.getMeteorQuote.
  rewrite <- (normalizeToken_caseVariant _ _ Ha),
    <- (normalizeToken_caseVariant _ _ Hb).
  do 5 (split; [reflexivity|]).
  split; intros Hsol;
    rewrite (normalizeToken_caseVariant _ _ Hsol); split; reflexivity.
Qed.

(** ** Orders created through the HTTP handler *)

Definition bodyTokenIn (body : RequestBody) : string :=
  default "" (b_tokenIn body).

Definition bodyTokenOut (body : RequestBody) : string :=
  default "" (b_tokenOut body).

Definition bodyAmount (body : RequestBody) : float :=
  default PrimFloat.nan (b_amount body).

(** The test that makes the handler answer 400. *)
Definition invalidOrder (body : RequestBody) : bool :=
  negb (Js.truthyStr (bodyTokenIn body))
  || negb (Js.truthyStr (bodyTokenOut body))
  || negb (Js.isFinite (bodyAmount body))
  || Js.le (bodyAmount body) 0%float.

Definition newRow (uuid : string) (body : RequestBody) (now : Z) : OrderRow :=
  {| id := uuid; row_type := "market"; token_in := bodyTokenIn body;
     token_out := bodyTokenOut body; row_amount := bodyAmount body;
     status := pending; dex := None; tx_hash := None; error := None;
     executed_price := None; created_at := now; updated_at := now |}.

Definition newJob (uuid : string) (body : RequestBody) : OrderJobData :=
  {| orderId := uuid; tokenIn := bodyTokenIn body;
     tokenOut := bodyTokenOut body; amount := bodyAmount body;
     type := "market" |}.

(** The world after an accepted request. *)
Definition afterAccept (uuid : string) (body : RequestBody) (w : World)
    : World :=
  afterEmit uuid pending noExtra
    (queueAdd (newJob uuid body)
       (redisSAdd uuid
          (record [PgInsert (newRow uuid body (clock w))]
             (setLedger (<[uuid := newRow uuid body (clock w)]> (ledger w))
                w)))).

(** The three ways the handler can end. *)
Lemma postExecute_run uuid body w :
  postExecute uuid body w
  = if invalidOrder body then (Ok (Reply400 "invalid_order"), w)
    else match ledger w !! uuid with
         | Some _ =>
             (Throw (Error (Text
                "duplicate key value violates unique constraint")), w)
         | None => (Ok (Reply200 uuid), afterAccept uuid body w)
         end.
Proof.
  unfold afterAccept, newRow, newJob, invalidOrder, bodyTokenIn,
    bodyTokenOut, bodyAmount.
  unfold postExecute. cbv zeta.
  cbn [p_tokenIn p_tokenOut p_amount p_type].
  match goal with |- context [if ?c then _ else _] => destruct c end;
    [reflexivity|].
  unfold mbind at 1. unfold IO_bind at 1. unfold pgInsertOrder.
  cbn [p_tokenIn p_tokenOut p_amount p_type].
  destruct (ledger w !! uuid); [reflexivity|].
  cbv beta iota.
  rewrite !bind_act, bind_emit. reflexivity.
Qed.

Definition withType (t : option string) (body : RequestBody) : RequestBody :=
  {| b_tokenIn := b_tokenIn body; b_tokenOut := b_tokenOut body;
     b_amount := b_amount body; b_type := t |}.

Lemma invalidOrder_withType t body :
  invalidOrder (withType t body) = invalidOrder body.
Proof. reflexivity. Qed.

Lemma newRow_withType t uuid body now :
  newRow uuid (withType t body) now = newRow uuid body now.
Proof. reflexivity. Qed.

Lemma newJob_withType t uuid body :
  newJob uuid (withType t body) = newJob uuid body.
Proof. reflexivity. Qed.

Lemma afterAccept_withType t uuid body w :
  afterAccept uuid (withType t body) w = afterAccept uuid body w.
Proof.
  unfold afterAccept. by rewrite newRow_withType, newJob_withType.
Qed.

Definition emptyWorld : World :=
  {| ledger := ∅; orderSockets := ∅; readyState := fun _ => 1%nat;
     active_orders := ∅; waiting := []; clock := 0; trace := [] |}.

Definition sampleBody : RequestBody :=
  {| b_tokenIn := Some "SOL"; b_tokenOut := Some "USDC";
     b_amount := Some 1.5%float; b_type := Some "limit" |}.

Lemma afterAccept_trace uuid body w :
  trace (afterAccept uuid body w)
  = trace w
    ++ PgInsert (newRow uuid body (clock w))
       :: RedisSAdd uuid
       :: QueueAdd (newJob uuid body)
       :: updateOf uuid pending noExtra
       :: map (fun s => WsSend s (eventOf uuid pending noExtra (clock w)))
            (openSockets w (subscribers w uuid)).
Proof.
  unfold afterAccept. rewrite afterEmit_trace. cbn [isTerminal].
  rewrite app_nil_r. unfold queueAdd, redisSAdd, record, setWaiting,
    setActiveOrders, setLedger, subscribers, openSockets.
  cbn [trace clock orderSockets readyState].
  by rewrite <- !app_assoc.
Qed.

Lemma market_never_unsupported job dexRouter w0 :
  type job = "market" ->
  fst (processor dexRouter job w0)
  <> Throw (Error (Text "Unsupported order type")).
Proof.
  intros Ht. rewrite processor_run, Ht.
  change (negb ("market" =? "market")%string) with false. cbv iota.
  match goal with |- context [Js.gt ?a ?b] => destruct (Js.gt a b) end;
    cbn [fst]; discriminate.
Qed.

(** C10. Whatever [type] the request body carries, the handler behaves the
    same; when it accepts the request, the row it inserts and the job it
    enqueues (the only job it adds to the queue) have the kind ["market"].
    A job of kind ["market"] never makes the worker throw the
    unsupported-kind error, so that branch is not reached for an order
    created by the handler. *)
Theorem api_orders_are_market uuid body w :
  let out := postExecute uuid body w in
  (forall t, postExecute uuid (withType t body) w = out)
  /\ (forall oid, fst out = Ok (Reply200 oid) ->
        oid = uuid
        /\ (exists row,
              ledger (snd out) !! uuid = Some row
              /\ row_type row = "market" /\ status row = pending)
        /\ (exists job,
              waiting (snd out) = waiting w ++ [job]
              /\ orderId job = uuid /\ type job = "market"
              /\ forall dexRouter w0,
                   fst (processor dexRouter job w0)
                   <> Throw (Error (Text "Unsupported order type"))))
  /\ ((forall oid, fst out <> Ok (Reply200 oid)) -> snd out = w)
  /\ (forall job, QueueAdd job ∈ trace (snd out) ->
        QueueAdd job ∈ trace w \/ type job = "market")
  /\ (forall row, PgInsert row ∈ trace (snd out) ->
        PgInsert row ∈ trace w \/ row_type row = "market").
Proof.
  intros out. subst out. split.
  { intros t. rewrite !postExecute_run.
    by rewrite invalidOrder_withType, afterAccept_withType. }
  rewrite postExecute_run.
  destruct (invalidOrder body).
  { cbn [fst snd]. split; [discriminate|]. split; [done|]. split; auto. }
  destruct (ledger w !! uuid) as [old|] eqn:Hfresh.
  { cbn [fst snd]. split; [discriminate|]. split; [done|]. split; auto. }
  cbn [fst snd]. split; [|split; [|split]].
  - intros oid [= <-]. split; [done|]. split.
    + exists (rowAfter pending noExtra
                (clock w) (newRow uuid body (clock w))).
      unfold afterAccept. rewrite afterEmit_ledger. cbn.
      rewrite (lookup_alter_Some_row _ _ _ (newRow uuid body (clock w)))
        by apply lookup_insert_eq.
      done.
    + exists (newJob uuid body). unfold afterAccept.
      split; [|split; [done|split; [done|]]].
      * unfold afterEmit. cbn [isTerminal].
        unfold publish.
        match goal with
        | |- context [orderSockets ?x !! uuid] =>
            destruct (orderSockets x !! uuid)
        end; [rewrite sendEach_waiting|]; reflexivity.
      * intros dexRouter w0. by apply market_never_unsupported.
  - intros Hne. by destruct (Hne uuid).
  - intros job. rewrite afterAccept_trace.
    rewrite elem_of_app. intros [Hin|Hin]; [by left|right].
    repeat (apply elem_of_cons in Hin as [Hin|Hin]; [try discriminate Hin|]).
    + by injection Hin as ->.
    + apply list_elem_of_fmap in Hin as (s & Hs & _). discriminate Hs.
  - intros row. rewrite afterAccept_trace.
    rewrite elem_of_app. intros [Hin|Hin]; [by left|right].
    repeat (apply elem_of_cons in Hin as [Hin|Hin]; [try discriminate Hin|]).
    + by injection Hin as ->.
    + apply list_elem_of_fmap in Hin as (s & Hs & _). discriminate Hs.
Qed.

Lemma api_orders_are_market_witness :
  fst (postExecute "o" sampleBody emptyWorld) = Ok (Reply200 "o")
  /\ exists job,
       waiting (snd (postExecute "o" sampleBody emptyWorld)) = [job]
       /\ type job = "market".
Proof.
  assert (H : fst (postExecute "o" sampleBody emptyWorld)
              = Ok (Reply200 "o")) by (vm_compute; reflexivity).
  split; [exact H|].
  pose proof (api_orders_are_market "o" sampleBody emptyWorld)
    as (_ & Hacc & _).
  destruct (Hacc "o" H) as (_ & _ & job & Hq & _ & Ht & _).
  exists job. split; [exact Hq | exact Ht].
Defined.

(** ** The statuses of an order over its lifetime *)

(** The failure listener, written out. *)
Definition failedExtra (err : JsError) : Extra :=
  {| x_dex := None; x_txHash := None;
     x_error := Some (msgOr (message err) "unknown_error");
     x_executedPrice := None |}.

Lemma onFailed_run job err w :
  onFailed (Some job) err w
  = (Ok tt,
     afterEmit (orderId job) failed (failedExtra err)
       (record [LogFailed (orderId job) (message err)] w)).
Proof. unfold onFailed. rewrite bind_act. apply emitStatus_run. Qed.

Lemma statusesOf_onFailed job err w :
  statusesOf (orderId job) (trace (snd (onFailed (Some job) err w)))
  = statusesOf (orderId job) (trace w) ++ [failed].
Proof.
  rewrite onFailed_run. cbn [snd]. rewrite statusesOf_afterEmit_same.
  unfold record. cbn [trace]. rewrite statusesOf_app. simpl.
  by rewrite app_nil_r.
Qed.








(** The first attempt settles 1.2 % away from its quote and fails the
    slippage check; the second one routes to the other venue and settles
    within the tolerance. *)
Definition slipsOnce (n : nat) : DexRouter :=
  match n with
  | O => stubRouter 1 0.5 1.012
  | S _ => stubRouter 0.5 1 1.008
  end.



(** ** Routers for retried jobs *)


Definition backoffOfEffect (e : Effect) : option Z :=
  match e with
  | QueueBackoff delay => Some delay
  | _ => None
  end.

(** The delays of the retries scheduled in a trace, in order. *)
Definition backoffsOf (t : list Effect) : list Z := omap backoffOfEffect t.

(** ** The row of an order after an attempt *)



(** The venue of a row in world [w] is still its venue in world [w']. *)
Definition keepsVenue (oid : string) (w w' : World) : Prop :=
  forall row row' d,
    ledger w !! oid = Some row -> dex row = Some d ->
    ledger w' !! oid = Some row' -> dex row' = Some d.

(** * Further properties of the code *)

(** ** The mock router *)

Lemma hashStep_range h c : 0 <= MockDexRouter.hashStep h c < 2 ^ 32.
Proof. unfold MockDexRouter.hashStep. apply Z.mod_pos_bound. lia. Qed.

Lemma fold_hashStep_range (codes : list Z) : forall h,
  0 <= h < 2 ^ 32 ->
  0 <= fold_left MockDexRouter.hashStep codes h < 2 ^ 32.
Proof.
  induction codes as [|c codes IH]; intros h Hh; simpl; [exact Hh|].
  apply IH, hashStep_range.
Qed.

Lemma pairHash_range key : 0 <= MockDexRouter.pairHash key < 2 ^ 32.
Proof. unfold MockDexRouter.pairHash. apply fold_hashStep_range. lia. Qed.

(** The base price for the residue [k] of the hash. *)
Definition priceOfResidue (k : Z) : float := (1 + Js.ofZ k / 100)%float.

Definition residueInRange (k : Z) : bool :=
  PrimFloat.leb 1 (priceOfResidue k) && PrimFloat.ltb (priceOfResidue k) 6.

Lemma residues_in_range : forallb residueInRange (seqZ 0 500) = true.
Proof. vm_compute. reflexivity. Qed.

(** The pair hash is an unsigned 32-bit integer, and the base price of
    every pair is one of the 500 values [1 + k / 100] with [0 <= k < 500]:
    at least 1 and below 6. *)
Theorem basePrice_range (tokenIn tokenOut : string) :
  let base := MockDexRouter.basePrice tokenIn tokenOut in
  0 <= MockDexRouter.pairHash (tokenIn ++ "-" ++ tokenOut)%string < 2 ^ 32
  /\ (exists k, 0 <= k < 500 /\ base = (1 + Js.ofZ k / 100)%float)
  /\ PrimFloat.leb 1 base = true
  /\ PrimFloat.ltb base 6 = true.
Proof.
  intros base. subst base. split; [apply pairHash_range|].
  unfold MockDexRouter.basePrice. cbv zeta.
  set (k := MockDexRouter.pairHash _ mod 500).
  assert (Hk : 0 <= k < 500) by (apply Z.mod_pos_bound; lia).
  split; [by exists k|].
  pose proof residues_in_range as Hall.
  rewrite forallb_forall in Hall.
  assert (Hin : In k (seqZ 0 500)).
  { apply list_elem_of_In, elem_of_seqZ. lia. }
  specialize (Hall k Hin). unfold residueInRange, priceOfResidue in Hall.
  by apply andb_true_iff in Hall.
Qed.

Fixpoint countDashes (s : string) : nat :=
  match s with
  | EmptyString => 0
  | String c r =>
      (if Ascii.eqb c "-"%char then 1 else 0) + countDashes r
  end.

Lemma removeDashes_no_dash s :
  countDashes (Js.removeDashes s) = 0%nat.
Proof.
  induction s as [|c s IH]; simpl; [done|].
  destruct (Ascii.eqb c "-") eqn:E; simpl; [exact IH|]. by rewrite E, IH.
Qed.

Lemma removeDashes_length s :
  (String.length (Js.removeDashes s) + countDashes s = String.length s)%nat.
Proof.
  induction s as [|c s IH]; simpl; [done|].
  destruct (Ascii.eqb c "-"); simpl; lia.
Qed.

(** The settlement hash of the mock swap is ["0x"] followed by the
    identifier with every dash removed: it contains no dash, is two
    characters longer than the identifier without its dashes, is never
    empty, and so is a value that [emitStatus] persists. *)
Theorem generateMockTxHash_shape (uuid : string) :
  let hash := MockDexRouter.generateMockTxHash uuid in
  hash = ("0x" ++ Js.removeDashes uuid)%string
  /\ countDashes hash = 0%nat
  /\ (String.length hash + countDashes uuid = 2 + String.length uuid)%nat
  /\ Js.strOrNull (Some hash) = Some hash.
Proof.
  intros hash. subst hash. unfold MockDexRouter.generateMockTxHash.
  split; [done|].
  change ("0x" ++ Js.removeDashes uuid)%string
    with (String "0" (String "x" (Js.removeDashes uuid))).
  split; [|split].
  - simpl. apply removeDashes_no_dash.
  - simpl. pose proof (removeDashes_length uuid). lia.
  - reflexivity.
Qed.

(** ** The HTTP handler *)

(** What makes a request body invalid, field by field. *)
Definition rejected (body : RequestBody) : Prop :=
  b_tokenIn body = None \/ b_tokenIn body = Some ""
  \/ b_tokenOut body = None \/ b_tokenOut body = Some ""
  \/ b_amount body = None
  \/ exists a, b_amount body = Some a
               /\ (Js.isFinite a = false \/ Js.le a 0 = true).

Lemma truthyStr_false s : Js.truthyStr s = false <-> s = "".
Proof. destruct s; simpl; split; congruence. Qed.

Lemma invalidOrder_rejected body : invalidOrder body = true <-> rejected body.
Proof.
  unfold invalidOrder, rejected, bodyTokenIn, bodyTokenOut, bodyAmount.
  destruct body as [[tin|] [tout|] [a|] t]; simpl.
  - rewrite !orb_true_iff, !negb_true_iff, !truthyStr_false. split.
    + intros [[[H|H]|H]|H].
      * right; left. by rewrite H.
      * do 3 right; left. by rewrite H.
      * do 5 right. exists a. auto.
      * do 5 right. exists a. auto.
    + intros [H|[H|[H|[H|[H|(a' & Ha & H)]]]]]; try discriminate.
      * injection H as ->. auto.
      * injection H as ->. auto.
      * injection Ha as <-. destruct H; auto.
  - split; [intros _; do 4 right; by left|intros _].
    rewrite !orb_true_iff. left; right. reflexivity.
  - split; [intros _; do 2 right; by left|intros _].
    rewrite !orb_true_iff. left; left; right. reflexivity.
  - split; [intros _; do 2 right; by left|intros _].
    rewrite !orb_true_iff. left; left; right. reflexivity.
  - split; [intros _; by left|intros _]. reflexivity.
  - split; [intros _; by left|intros _]. reflexivity.
  - split; [intros _; by left|intros _]. reflexivity.
  - split; [intros _; by left|intros _]. reflexivity.
Qed.

(** The handler answers 400 [invalid_order] exactly when a token is
    missing or empty, or the amount is missing, not finite (NaN or an
    infinity) or not above zero; it then touches nothing: no row, no queue
    entry, no event. *)
Theorem postExecute_rejects_invalid uuid body w :
  (fst (postExecute uuid body w) = Ok (Reply400 "invalid_order")
   <-> rejected body)
  /\ (rejected body -> snd (postExecute uuid body w) = w).
Proof.
  rewrite <- invalidOrder_rejected, postExecute_run.
  destruct (invalidOrder body); cbn [fst snd].
  - split; [split; done|done].
  - split; [|discriminate].
    split; [|discriminate]. destruct (ledger w !! uuid); discriminate.
Qed.

Definition zeroAmountBody : RequestBody :=
  {| b_tokenIn := Some "SOL"; b_tokenOut := Some "USDC";
     b_amount := Some 0%float; b_type := None |}.

Lemma postExecute_rejects_invalid_witness :
  rejected zeroAmountBody
  /\ postExecute "o" zeroAmountBody emptyWorld
     = (Ok (Reply400 "invalid_order"), emptyWorld).
Proof.
  assert (H : rejected zeroAmountBody).
  { do 5 right. exists 0%float. split; [reflexivity|]. right. reflexivity. }
  split; [exact H|].
  pose proof (postExecute_rejects_invalid "o" zeroAmountBody emptyWorld)
    as [Hfst Hsnd].
  rewrite (surjective_pairing (postExecute "o" zeroAmountBody emptyWorld)).
  by rewrite (proj2 Hfst H), (Hsnd H).
Defined.

Lemma publish_active_orders oid payload w :
  active_orders (publish oid payload w) = active_orders w.
Proof.
  unfold publish. destruct (orderSockets w !! oid); [|done].
  apply sendEach_active_orders.
Qed.

Lemma afterEmit_active_orders oid st x w :
  active_orders (afterEmit oid st x w)
  = if isTerminal st then active_orders w ∖ {[oid]} else active_orders w.
Proof.
  unfold afterEmit. destruct (isTerminal st); simpl;
    by rewrite publish_active_orders.
Qed.



(** A valid request whose identifier is already a primary key of the
    ledger fails at the insertion: the handler throws and leaves the
    existing row, the active set and the queue as they were, and emits
    nothing. *)
Theorem postExecute_duplicate_id uuid body w row :
  invalidOrder body = false -> ledger w !! uuid = Some row ->
  (exists e, fst (postExecute uuid body w) = Throw e)
  /\ snd (postExecute uuid body w) = w.
Proof.
  intros Hvalid Hdup. rewrite postExecute_run, Hvalid, Hdup. cbn [fst snd].
  split; [by eexists|done].
Qed.

Lemma postExecute_duplicate_id_witness :
  invalidOrder sampleBody = false
  /\ ledger sampleWorld !! "o" = Some (sampleRow "o")
  /\ snd (postExecute "o" sampleBody sampleWorld) = sampleWorld.
Proof.
  assert (H1 : invalidOrder sampleBody = false) by reflexivity.
  assert (H2 : ledger sampleWorld !! "o" = Some (sampleRow "o"))
    by reflexivity.
  split; [exact H1|]. split; [exact H2|].
  exact (proj2 (postExecute_duplicate_id "o" sampleBody sampleWorld
                  (sampleRow "o") H1 H2)).
Defined.

(** ** The registry of observers *)

Lemma truthyStr_true s : s <> "" -> Js.truthyStr s = true.
Proof. destruct s; [done|reflexivity]. Qed.

Lemma elem_of_setAdd (s socket : Socket) (set : list Socket) :
  s ∈ setAdd socket set <-> s = socket \/ s ∈ set.
Proof.
  unfold setAdd. destruct (decide (socket ∈ set)) as [Hin|Hnot].
  - split; [by right|]. intros [->|H]; done.
  - rewrite elem_of_app, list_elem_of_singleton. tauto.
Qed.

Lemma setAdd_NoDup socket (set : list Socket) :
  NoDup set -> NoDup (setAdd socket set).
Proof.
  intros Hnd. unfold setAdd. destruct (decide (socket ∈ set)); [done|].
  apply NoDup_app. split; [done|]. split; [|apply NoDup_singleton].
  intros x Hx Hs. apply list_elem_of_singleton in Hs. by subst.
Qed.

Lemma setAdd_not_nil socket (set : list Socket) : setAdd socket set <> [].
Proof.
  unfold setAdd. destruct (decide (socket ∈ set)) as [Hin|Hnot].
  - intros ->. by apply elem_of_nil in Hin.
  - by destruct set.
Qed.

Lemma setAdd_idemp socket (set : list Socket) :
  setAdd socket (setAdd socket set) = setAdd socket set.
Proof.
  assert (Hin : socket ∈ setAdd socket set) by (apply elem_of_setAdd; by left).
  generalize dependent (setAdd socket set). intros l Hin.
  unfold setAdd. by rewrite decide_True.
Qed.

Lemma setDelete_not_elem socket (set : list Socket) :
  socket ∉ set -> setDelete socket set = set.
Proof.
  unfold setDelete. induction set as [|x set IH]; intros Hnot; [done|].
  apply not_elem_of_cons in Hnot as [Hne Hnot].
  rewrite filter_cons_True by done. by rewrite IH.
Qed.

Lemma wsConnect_orderSockets oid s w :
  oid <> "" ->
  orderSockets (wsConnect (Some oid) s w)
  = <[oid := setAdd s (subscribers w oid)]> (orderSockets w).
Proof.
  intros Hne. unfold wsConnect. simpl. by rewrite truthyStr_true.
Qed.

Lemma wsConnect_subscribers oid s w :
  oid <> "" ->
  subscribers (wsConnect (Some oid) s w) oid = setAdd s (subscribers w oid).
Proof.
  intros Hne. unfold subscribers at 1.
  rewrite wsConnect_orderSockets by done. by rewrite lookup_insert_eq.
Qed.

Lemma wsConnect_frame q s w :
  trace (wsConnect q s w) = trace w
  /\ ledger (wsConnect q s w) = ledger w
  /\ clock (wsConnect q s w) = clock w
  /\ active_orders (wsConnect q s w) = active_orders w
  /\ waiting (wsConnect q s w) = waiting w.
Proof.
  unfold wsConnect. destruct (negb _); repeat split.
Qed.

(** Registering an observer under a non-empty order identifier adds its
    socket to the set of that order and to no other set, keeps the set
    free of duplicates, and is idempotent. It writes nothing and sends
    nothing: no past event is replayed. The next event published for the
    order is sent to the socket if it is open. *)
Theorem wsConnect_registers oid s w :
  oid <> "" ->
  let w' := wsConnect (Some oid) s w in
  (forall s', s' ∈ subscribers w' oid <-> s' = s \/ s' ∈ subscribers w oid)
  /\ (NoDup (subscribers w oid) -> NoDup (subscribers w' oid))
  /\ (forall oid', oid' <> oid ->
        orderSockets w' !! oid' = orderSockets w !! oid')
  /\ orderSockets (wsConnect (Some oid) s w') = orderSockets w'
  /\ trace w' = trace w
  /\ ledger w' = ledger w
  /\ (readyState w s = 1%nat ->
      forall st x,
        WsSend s (eventOf oid st x (clock w))
        ∈ trace (snd (emitStatus oid st x w'))).
Proof.
  intros Hne w'. subst w'.
  split; [|split; [|split; [|split; [|split; [|split]]]]].
  - intros s'. rewrite wsConnect_subscribers by done. apply elem_of_setAdd.
  - rewrite wsConnect_subscribers by done. apply setAdd_NoDup.
  - intros oid' Hne'. rewrite wsConnect_orderSockets by done.
    by rewrite lookup_insert_ne.
  - rewrite (wsConnect_orderSockets oid s (wsConnect (Some oid) s w))
      by done.
    rewrite wsConnect_subscribers by done.
    apply insert_id. rewrite wsConnect_orderSockets by done.
    rewrite lookup_insert_eq. f_equal. symmetry. apply setAdd_idemp.
  - apply wsConnect_frame.
  - apply wsConnect_frame.
  - intros Hopen st x. rewrite emitStatus_run. cbn [snd].
    rewrite afterEmit_trace.
    destruct (wsConnect_frame (Some oid) s w) as (_ & _ & -> & _).
    apply elem_of_app. right. apply list_elem_of_further.
    apply elem_of_app. left. apply list_elem_of_fmap. exists s.
    split; [done|]. unfold openSockets. apply list_elem_of_filter.
    split.
    + unfold wsConnect. simpl. by rewrite truthyStr_true.
    + rewrite wsConnect_subscribers by done. apply elem_of_setAdd. by left.
Qed.

Lemma wsConnect_registers_witness :
  subscribers (wsConnect (Some "o") 5%nat sampleWorld) "o"
  = [1%nat; 2%nat; 5%nat]
  /\ trace (wsConnect (Some "o") 5%nat sampleWorld) = [].
Proof.
  assert (Hne : "o" <> "") by discriminate.
  pose proof (wsConnect_registers "o" 5%nat sampleWorld Hne)
    as (_ & _ & _ & _ & Ht & _).
  split; [reflexivity | exact Ht].
Defined.

(** A connection without an order identifier (absent or empty) is closed
    and never registered: the registry, the ledger and the trace stay as
    they were. *)
Theorem wsConnect_without_order_id q s w :
  q = None \/ q = Some "" ->
  let w' := wsConnect q s w in
  orderSockets w' = orderSockets w
  /\ readyState w' s <> 1%nat
  /\ (forall s', s' <> s -> readyState w' s' = readyState w s')
  /\ trace w' = trace w
  /\ ledger w' = ledger w.
Proof.
  intros [-> | ->] w'; subst w'; unfold wsConnect; simpl;
    (split; [done|]); rewrite Nat.eqb_refl;
    (split; [done|]); (split; [|done]);
    intros s' Hs'; by rewrite (proj2 (Nat.eqb_neq s' s) Hs').
Qed.

Lemma wsConnect_without_order_id_witness :
  orderSockets (wsConnect None 9%nat sampleWorld) = orderSockets sampleWorld
  /\ readyState (wsConnect (Some "") 9%nat sampleWorld) 9%nat <> 1%nat.
Proof.
  split.
  - exact (proj1 (wsConnect_without_order_id None 9%nat sampleWorld
                    (or_introl eq_refl))).
  - exact (proj1 (proj2 (wsConnect_without_order_id (Some "") 9%nat
                           sampleWorld (or_intror eq_refl)))).
Defined.

(** What happens to the registry: connections, closed sockets, events. *)
Inductive RegistryEvent :=
| Connected (queryOrderId : option string) (socket : Socket)
| Closed (oid : string) (socket : Socket)
| Emitted (oid : string) (st : OrderStatus) (x : Extra).

Definition stepRegistry (w : World) (e : RegistryEvent) : World :=
  match e with
  | Connected q s => wsConnect q s w
  | Closed oid s => onSocketClose oid s w
  | Emitted oid st x => snd (emitStatus oid st x w)
  end.

(** Every set of the registry is non-empty and without duplicates. *)
Definition wellFormedRegistry (r : gmap string (list Socket)) : Prop :=
  forall oid set, r !! oid = Some set -> set <> [] /\ NoDup set.

Lemma stepRegistry_wellFormed w e :
  wellFormedRegistry (orderSockets w) ->
  wellFormedRegistry (orderSockets (stepRegistry w e)).
Proof.
  intros Hwf. destruct e as [q s|oid s|oid st x]; simpl.
  - unfold wsConnect. destruct (negb _); [exact Hwf|]. simpl.
    intros oid set. destruct (decide (default "" q = oid)) as [<-|Hne].
    + rewrite lookup_insert_eq. intros [= <-].
      split; [apply setAdd_not_nil|]. apply setAdd_NoDup.
      destruct (orderSockets w !! default "" q) as [l|] eqn:El; simpl.
      * exact (proj2 (Hwf _ _ El)).
      * apply NoDup_nil_2.
    + rewrite lookup_insert_ne by done. apply Hwf.
  - unfold onSocketClose.
    destruct (orderSockets w !! oid) as [current|] eqn:Ec; [|exact Hwf].
    destruct (Nat.eqb_spec (length (setDelete s current)) 0) as [Hl|Hl];
      simpl; intros oid' set.
    + destruct (decide (oid = oid')) as [->|Hne].
      * by rewrite lookup_delete_eq.
      * rewrite lookup_delete_ne by done. apply Hwf.
    + destruct (decide (oid = oid')) as [->|Hne].
      * rewrite lookup_insert_eq. intros [= <-]. split.
        -- intros Hnil. by rewrite Hnil in Hl.
        -- apply NoDup_filter. exact (proj2 (Hwf _ _ Ec)).
      * rewrite lookup_insert_ne by done. apply Hwf.
  - rewrite emitStatus_run. cbn [snd]. by rewrite afterEmit_orderSockets.
Qed.

(** The registry never retains an empty set, nor a socket twice in a set:
    this holds initially and is kept by every connection, every close
    listener and every published event, in any order. *)
Theorem registry_keeps_no_empty_set (events : list RegistryEvent) w :
  wellFormedRegistry (orderSockets w) ->
  wellFormedRegistry (orderSockets (fold_left stepRegistry events w)).
Proof.
  revert w. induction events as [|e events IH]; intros w Hwf; simpl;
    [exact Hwf|].
  by apply IH, stepRegistry_wellFormed.
Qed.

Lemma registry_keeps_no_empty_set_witness :
  wellFormedRegistry (orderSockets emptyWorld)
  /\ wellFormedRegistry
       (orderSockets
          (fold_left stepRegistry
             [Connected (Some "o") 1%nat; Emitted "o" routing noExtra;
              Closed "o" 1%nat] emptyWorld)).
Proof.
  assert (H : wellFormedRegistry (orderSockets emptyWorld)).
  { intros oid set Hl. simpl in Hl. by rewrite lookup_empty in Hl. }
  split; [exact H|].
  exact (registry_keeps_no_empty_set
           [Connected (Some "o") 1%nat; Emitted "o" routing noExtra;
            Closed "o" 1%nat] emptyWorld H).
Defined.

(** Registering a socket that was not registered under the order and then
    running its close listener gives back the registry as it was, the
    entry of the order included (deleted again if the socket was its only
    observer). *)
Theorem connect_then_close_restores_registry oid s w :
  oid <> "" ->
  s ∉ subscribers w oid ->
  orderSockets w !! oid <> Some [] ->
  orderSockets (onSocketClose oid s (wsConnect (Some oid) s w))
  = orderSockets w.
Proof.
  intros Hne Hnot Hnonempty. unfold onSocketClose.
  rewrite wsConnect_orderSockets by done. rewrite lookup_insert_eq.
  unfold setAdd. rewrite decide_False by done.
  assert (Hdel : setDelete s (subscribers w oid ++ [s]) = subscribers w oid).
  { unfold setDelete. rewrite filter_app.
    fold (setDelete s (subscribers w oid)).
    rewrite setDelete_not_elem by done.
    rewrite filter_cons_False by (intros H; by apply H).
    by rewrite filter_nil, app_nil_r. }
  rewrite Hdel. unfold subscribers in *.
  destruct (orderSockets w !! oid) as [set|] eqn:Eset; simpl.
  - destruct set as [|x set]; [done|]. simpl.
    rewrite insert_insert_eq. by apply insert_id.
  - simpl. by apply delete_insert_id.
Qed.

Lemma connect_then_close_restores_registry_witness :
  orderSockets (onSocketClose "o" 5%nat (wsConnect (Some "o") 5%nat
                                           sampleWorld))
  = orderSockets sampleWorld.
Proof.
  apply connect_then_close_restores_registry.
  - discriminate.
  - unfold subscribers. simpl. rewrite lookup_singleton_eq. simpl.
    intros H. apply elem_of_cons in H as [H|H]; [discriminate H|].
    apply list_elem_of_singleton in H. discriminate H.
  - simpl. rewrite lookup_singleton_eq. discriminate.
Defined.

(** ** What a job touches *)

(** The columns no transition writes. *)
Definition sameOrder (row row' : OrderRow) : Prop :=
  id row' = id row /\ row_type row' = row_type row
  /\ token_in row' = token_in row /\ token_out row' = token_out row
  /\ row_amount row' = row_amount row /\ created_at row' = created_at row.

(** Between two ledgers only the row of [oid] differs, and only in the
    columns a transition writes; no row appears or disappears. *)
Definition ledgerFrame (oid : string) (l l' : gmap string OrderRow) : Prop :=
  (forall o, o <> oid -> l' !! o = l !! o)
  /\ (l !! oid = None -> l' !! oid = None)
  /\ (forall row, l !! oid = Some row ->
        exists row', l' !! oid = Some row' /\ sameOrder row row').

(** The effects a job of order [oid] may have, started in world [w]. *)
Definition effectOf (oid : string) (w : World) (e : Effect) : Prop :=
  match e with
  | PgUpdate o _ _ _ _ _ => o = oid
  | WsSend s p =>
      s ∈ subscribers w oid /\ readyState w s = 1%nat /\ e_orderId p = oid
  | RedisSRem o => o = oid
  | LogRouting o _ _ _ => o = oid
  | LogFailed o _ => o = oid
  | QueueBackoff _ => True
  | PgInsert _ | RedisSAdd _ | QueueAdd _ => False
  end.

Record touchesOnly (oid : string) (w w' : World) : Prop := {
  to_orderSockets : orderSockets w' = orderSockets w;
  to_readyState : readyState w' = readyState w;
  to_waiting : waiting w' = waiting w;
  to_clock : clock w' = clock w;
  to_ledger : ledgerFrame oid (ledger w) (ledger w');
  to_active :
    forall o, o ∈ active_orders w' -> o ∈ active_orders w;
  to_active_others :
    forall o, o <> oid -> o ∈ active_orders w -> o ∈ active_orders w';
  to_trace : exists t, trace w' = trace w ++ t /\ Forall (effectOf oid w) t
}.

Lemma sameOrder_refl row : sameOrder row row.
Proof. by repeat split. Qed.

Lemma sameOrder_trans r1 r2 r3 :
  sameOrder r1 r2 -> sameOrder r2 r3 -> sameOrder r1 r3.
Proof.
  intros (?&?&?&?&?&?) (?&?&?&?&?&?). repeat split; congruence.
Qed.

Lemma ledgerFrame_refl oid l : ledgerFrame oid l l.
Proof.
  split; [done|]. split; [done|]. intros row H. exists row.
  split; [done|apply sameOrder_refl].
Qed.

Lemma ledgerFrame_trans oid l1 l2 l3 :
  ledgerFrame oid l1 l2 -> ledgerFrame oid l2 l3 -> ledgerFrame oid l1 l3.
Proof.
  intros (Ho1 & Hn1 & Hs1) (Ho2 & Hn2 & Hs2). split; [|split].
  - intros o Hne. by rewrite Ho2, Ho1.
  - intros H. by apply Hn2, Hn1.
  - intros row H. destruct (Hs1 row H) as (row2 & H2 & Hsame2).
    destruct (Hs2 row2 H2) as (row3 & H3 & Hsame3).
    exists row3. split; [done|]. by eapply sameOrder_trans.
Qed.

Lemma effectOf_same oid w w' e :
  orderSockets w' = orderSockets w -> readyState w' = readyState w ->
  effectOf oid w' e -> effectOf oid w e.
Proof.
  intros Hs Hr. destruct e; simpl; try done.
  unfold subscribers. by rewrite Hs, Hr.
Qed.

Lemma touchesOnly_refl oid w : touchesOnly oid w w.
Proof.
  split; try done; [apply ledgerFrame_refl|].
  exists []. by rewrite app_nil_r.
Qed.

Lemma touchesOnly_trans oid w1 w2 w3 :
  touchesOnly oid w1 w2 -> touchesOnly oid w2 w3 -> touchesOnly oid w1 w3.
Proof.
  intros [Hs1 Hr1 Hw1 Hc1 Hl1 Ha1 Hao1 (t1 & Ht1 & Hf1)]
         [Hs2 Hr2 Hw2 Hc2 Hl2 Ha2 Hao2 (t2 & Ht2 & Hf2)].
  split; try congruence.
  - by eapply ledgerFrame_trans.
  - auto.
  - auto.
  - exists (t1 ++ t2). split; [by rewrite Ht2, Ht1, app_assoc|].
    apply Forall_app. split; [done|].
    eapply Forall_impl; [exact Hf2|]. intros e.
    by apply effectOf_same.
Qed.

Lemma publish_waiting oid payload w :
  waiting (publish oid payload w) = waiting w.
Proof.
  unfold publish. destruct (orderSockets w !! oid); [|done].
  apply sendEach_waiting.
Qed.

Lemma afterEmit_waiting oid st x w :
  waiting (afterEmit oid st x w) = waiting w.
Proof.
  unfold afterEmit. destruct (isTerminal st); simpl;
    by rewrite publish_waiting.
Qed.

Lemma afterEmit_touchesOnly oid st x w :
  touchesOnly oid w (afterEmit oid st x w).
Proof.
  split.
  - apply afterEmit_orderSockets.
  - apply afterEmit_readyState.
  - apply afterEmit_waiting.
  - apply afterEmit_clock.
  - rewrite afterEmit_ledger. split; [|split].
    + intros o Hne. by rewrite lookup_alter_ne.
    + intros H. by rewrite lookup_alter_eq, H.
    + intros row H. eexists. split; [by apply lookup_alter_Some_row|].
      by repeat split.
  - intros o. rewrite afterEmit_active_orders.
    destruct (isTerminal st); [|done].
    intros H. by apply elem_of_difference in H as [H _].
  - intros o Hne. rewrite afterEmit_active_orders.
    destruct (isTerminal st); [|done].
    intros H. apply elem_of_difference. split; [done|].
    by intros ?%elem_of_singleton.
  - eexists. split; [apply afterEmit_trace|].
    apply Forall_cons. split; [done|].
    apply Forall_app. split.
    + apply Forall_fmap, Forall_forall. intros s Hs.
      apply list_elem_of_filter in Hs as [Hopen Hs]. by repeat split.
    + destruct (isTerminal st); [|done]. by apply Forall_singleton.
Qed.

Lemma record_touchesOnly oid es w :
  Forall (effectOf oid w) es -> touchesOnly oid w (record es w).
Proof.
  intros Hes. split; try done; [apply ledgerFrame_refl|].
  by exists es.
Qed.

Lemma processor_touchesOnly dexRouter job w :
  touchesOnly (orderId job) w (snd (processor dexRouter job w)).
Proof.
  assert (H1 : touchesOnly (orderId job) w (afterRouting dexRouter job w)).
  { unfold afterRouting.
    eapply touchesOnly_trans; [apply afterEmit_touchesOnly|].
    apply record_touchesOnly. by apply Forall_singleton. }
  assert (H2 : touchesOnly (orderId job) w (afterBuilding dexRouter job w)).
  { eapply touchesOnly_trans; [exact H1|]. apply afterEmit_touchesOnly. }
  assert (H3 : touchesOnly (orderId job) w (afterSubmitted dexRouter job w)).
  { eapply touchesOnly_trans; [exact H2|]. apply afterEmit_touchesOnly. }
  assert (H4 : touchesOnly (orderId job) w (afterConfirmed dexRouter job w)).
  { eapply touchesOnly_trans; [exact H3|]. apply afterEmit_touchesOnly. }
  rewrite processor_run.
  destruct (negb _); [done|].
  match goal with |- context [Js.gt ?a ?b] => destruct (Js.gt a b) end; done.
Qed.

Lemma onFailed_touchesOnly job err w :
  touchesOnly (orderId job) w (snd (onFailed (Some job) err w)).
Proof.
  rewrite onFailed_run. cbn [snd].
  eapply touchesOnly_trans; [|apply afterEmit_touchesOnly].
  apply record_touchesOnly. by apply Forall_singleton.
Qed.

(** Whatever the venues answer and however many attempts it takes, the run
    of a job touches its own order only: it leaves the registry, the
    sockets, the queue and the clock alone; it inserts and deletes no row,
    leaves the rows of other orders as they are and, in its own row,
    leaves identifier, kind, tokens, amount and creation time; it adds no
    order to the active set and removes no other order from it; and every
    effect it has is an update, a log line, a removal from the active set
    for its own order, a retry delay, or an event carrying its own order
    identifier sent to an open socket registered under that order. *)
Theorem job_touches_only_its_order retriesLeft :
  forall attemptsMade routers job w,
    touchesOnly (orderId job) w
      (snd (runAttempts retriesLeft attemptsMade routers job w)).
Proof.
  induction retriesLeft as [|k IH]; intros made routers job w;
    cbn [runAttempts];
    pose proof (processor_touchesOnly (routers made) job w) as Hp;
    destruct (processor (routers made) job w) as [[ret|e] w1];
    cbn [fst snd] in *; try exact Hp.
  - eapply touchesOnly_trans; [exact Hp|]. apply onFailed_touchesOnly.
  - eapply touchesOnly_trans; [exact Hp|].
    eapply touchesOnly_trans;
      [apply (record_touchesOnly (orderId job)
                [QueueBackoff (exponentialBackoff (S made))] w1);
       by apply Forall_singleton|].
    eapply touchesOnly_trans; [apply onFailed_touchesOnly|]. apply IH.
Qed.

(** ** Retries and the final state of a job *)

Lemma backoffsOf_app t1 t2 :
  backoffsOf (t1 ++ t2) = backoffsOf t1 ++ backoffsOf t2.
Proof. apply omap_app. Qed.

Lemma backoffsOf_sends payload (sockets : list Socket) :
  backoffsOf (map (fun s => WsSend s payload) sockets) = [].
Proof. induction sockets as [|s rest IH]; [done|exact IH]. Qed.

Lemma backoffsOf_afterEmit oid st x w :
  backoffsOf (trace (afterEmit oid st x w)) = backoffsOf (trace w).
Proof.
  rewrite afterEmit_trace, backoffsOf_app.
  change (updateOf oid st x :: ?l) with ([updateOf oid st x] ++ l).
  rewrite !backoffsOf_app, backoffsOf_sends.
  destruct (isTerminal st); simpl; by rewrite app_nil_r.
Qed.


Lemma backoffsOf_onFailed job err w :
  backoffsOf (trace (snd (onFailed (Some job) err w))) = backoffsOf (trace w).
Proof.
  rewrite onFailed_run. cbn [snd]. rewrite backoffsOf_afterEmit.
  unfold record. cbn [trace]. rewrite backoffsOf_app. simpl.
  by rewrite app_nil_r.
Qed.

Lemma backoffsOf_afterBuilding dexRouter job w :
  backoffsOf (trace (afterBuilding dexRouter job w)) = backoffsOf (trace w).
Proof.
  unfold afterBuilding, afterRouting, record.
  rewrite backoffsOf_afterEmit. cbn [trace].
  rewrite backoffsOf_app, backoffsOf_afterEmit. simpl. by rewrite app_nil_r.
Qed.

Lemma runAttempts_throw_last made routers job w e w1 :
  processor (routers made) job w = (Throw e, w1) ->
  runAttempts 0 made routers job w
  = (Failed e, snd (onFailed (Some job) e w1)).
Proof. intros H. simpl. by rewrite H. Qed.

Lemma runAttempts_throw_retry k made routers job w e w1 :
  processor (routers made) job w = (Throw e, w1) ->
  runAttempts (S k) made routers job w
  = runAttempts k (S made) routers job
      (snd (onFailed (Some job) e
              (record [QueueBackoff (exponentialBackoff (S made))] w1))).
Proof. intros H. simpl. by rewrite H. Qed.





(** A job whose kind is not ["market"] is not rejected at once: every
    attempt writes [routing] and [building] (with a venue) before it
    throws the unsupported-kind error, the job is retried like any other
    and ends as failed after the third attempt, without ever reaching
    [submitted]. *)
Theorem unsupported_kind_is_retried routers job w :
  String.eqb (type job) "market" = false ->
  let out := runJob routers job w in
  fst out = Failed (Error (Text "Unsupported order type"))
  /\ statusesOf (orderId job) (trace (snd out))
     = statusesOf (orderId job) (trace w)
       ++ [routing; building; failed; routing; building; failed;
           routing; building; failed]
  /\ backoffsOf (trace (snd out)) = backoffsOf (trace w) ++ [500; 1000].
Proof.
  intros Hkind out. subst out. unfold runJob.
  assert (Hrun : forall r w0,
            processor r job w0
            = (Throw (Error (Text "Unsupported order type")),
               afterBuilding r job w0)).
  { intros r w0. by rewrite processor_run, Hkind. }
  change (attempts - 1)%nat with 2%nat.
  rewrite (runAttempts_throw_retry _ _ _ _ _ _ _ (Hrun _ _)).
  rewrite (runAttempts_throw_retry _ _ _ _ _ _ _ (Hrun _ _)).
  rewrite (runAttempts_throw_last _ _ _ _ _ _ (Hrun _ _)).
  cbn [fst snd]. split; [done|].
  split.
  - rewrite statusesOf_onFailed, statusesOf_afterBuilding.
    rewrite statusesOf_onFailed.
    unfold record at 1. cbn [trace]. rewrite statusesOf_app.
    rewrite statusesOf_afterBuilding, statusesOf_onFailed.
    unfold record at 1. cbn [trace]. rewrite statusesOf_app.
    rewrite statusesOf_afterBuilding.
    change (statusesOf (orderId job) [QueueBackoff ?d]) with (@nil OrderStatus).
    by rewrite !app_nil_r, <- !app_assoc.
  - rewrite backoffsOf_onFailed, backoffsOf_afterBuilding.
    rewrite backoffsOf_onFailed.
    unfold record at 1. cbn [trace]. rewrite backoffsOf_app.
    rewrite backoffsOf_afterBuilding, backoffsOf_onFailed.
    unfold record at 1. cbn [trace]. rewrite backoffsOf_app.
    rewrite backoffsOf_afterBuilding.
    change (backoffsOf [QueueBackoff ?d]) with [d].
    by rewrite <- !app_assoc.
Qed.

Definition limitJob : OrderJobData :=
  {| orderId := "o"; tokenIn := "SOL"; tokenOut := "USDC";
     amount := 1.5%float; type := "limit" |}.

Lemma unsupported_kind_is_retried_witness :
  fst (runJob slipsOnce limitJob sampleWorld)
  = Failed (Error (Text "Unsupported order type")).
Proof.
  exact (proj1 (unsupported_kind_is_retried slipsOnce limitJob sampleWorld
                  eq_refl)).
Defined.






(** * Rejected awaits

    [emitStatus] awaits two calls that can reject: the ledger query, before
    anything is sent, and, for a terminal status, the removal from the
    active set, after the row is written and the event sent. A rejection
    is an exception of the attempt, and the only way an order created by
    the handler makes the mock router's pipeline throw. *)

Record Faults := {
  queryRejects : option JsError;
  sRemRejects : option JsError
}.

Definition noFaults : Faults :=
  {| queryRejects := None; sRemRejects := None |}.

(** An awaited call that rejects with [e], or resolves after [f]. *)
Definition await (rejection : option JsError) (f : World -> World)
    : IO unit :=
  match rejection with
  | Some e => throw e
  | None => act f
  end.

(** [emitStatus], with the rejections of its two awaits. *)
Definition emitStatusF (fs : Faults) (orderId : string)
    (status : OrderStatus) (extra : Extra) : IO unit :=
  w0 ← getWorld;
  let payload :=
    {| e_orderId := orderId;
       e_status := status;
       e_dex := x_dex extra;
       e_txHash := x_txHash extra;
       e_error := x_error extra;
       e_executedPrice := x_executedPrice extra;
       e_timestamp := clock w0 |} in
  await (queryRejects fs)
    (pgUpdateOrder orderId status
       (x_dex extra)
       (Js.strOrNull (x_txHash extra))
       (msgOrNull (x_error extra))
       (Js.numOrNull (x_executedPrice extra)));;
  act (publish orderId payload);;
  if isTerminal status then await (sRemRejects fs) (redisSRem orderId)
  else mret tt.

(** The processor, with the rejections met by each of its four calls of
    [emitStatus]. *)
Definition processorF (dexRouter : DexRouter)
    (faults : OrderStatus -> Faults) (job : OrderJobData) : IO JobReturn :=
  emitStatusF (faults routing) (orderId job) routing noExtra;;
  let raydiumQuote :=
    getRaydiumQuote dexRouter (tokenIn job) (tokenOut job) (amount job) in
  let meteoraQuote :=
    getMeteorQuote dexRouter (tokenIn job) (tokenOut job) (amount job) in
  let raydiumEffective := effectivePrice raydiumQuote in
  let meteoraEffective := effectivePrice meteoraQuote in
  let bestDex := bestDexOf raydiumQuote meteoraQuote in
  let bestQuote :=
    match bestDex with
    | meteora => meteoraQuote
    | raydium => raydiumQuote
    end in
  act (record [LogRouting (orderId job) raydiumEffective meteoraEffective
                 bestDex]);;
  emitStatusF (faults building) (orderId job) building (withDex bestDex);;
  if negb (String.eqb (type job) "market")
  then throw (Error (Text "Unsupported order type"))
  else
    emitStatusF (faults submitted) (orderId job) submitted
      (withDex bestDex);;
    let swapResult := executeSwap dexRouter bestDex job (price bestQuote) in
    let relativeDiff :=
      relativeDiffOf (executedPrice swapResult) (price bestQuote) in
    if Js.gt relativeDiff allowedSlippage
    then throw (Error (SlippageTooHigh relativeDiff allowedSlippage))
    else
      emitStatusF (faults confirmed) (orderId job) confirmed
        {| x_dex := Some bestDex;
           x_txHash := Some (txHash swapResult);
           x_error := None;
           x_executedPrice := Some (executedPrice swapResult) |};;
      mret {| r_dex := bestDex;
              r_txHash := txHash swapResult;
              r_executedPrice := executedPrice swapResult |}.

(** What one attempt meets: the answers of the venues and the
    rejections. *)
Record AttemptEnv := {
  env_router : DexRouter;
  env_faults : OrderStatus -> Faults
}.

(** The retry loop of the queue (see [runAttempts]) over [processorF]. *)
Fixpoint runAttemptsF (retriesLeft attemptsMade : nat)
    (envs : nat -> AttemptEnv) (job : OrderJobData) (w : World)
    : JobOutcome * World :=
  match processorF (env_router (envs attemptsMade))
          (env_faults (envs attemptsMade)) job w with
  | (Ok r, w1) => (Completed r, w1)
  | (Throw e, w1) =>
      match retriesLeft with
      | O => (Failed e, snd (onFailed (Some job) e w1))
      | S k =>
          let w2 :=
            record [QueueBackoff (exponentialBackoff (S attemptsMade))] w1 in
          runAttemptsF k (S attemptsMade) envs job
            (snd (onFailed (Some job) e w2))
      end
  end.

Definition runJobF (envs : nat -> AttemptEnv) (job : OrderJobData)
    (w : World) : JobOutcome * World :=
  runAttemptsF (attempts - 1) 0 envs job w.


(** The world after the ledger update and the sends of [emitStatus], before
    the removal from the active set. *)
Definition afterSent (oid : string) (st : OrderStatus) (x : Extra)
    (w : World) : World :=
  publish oid (eventOf oid st x (clock w))
    (pgUpdateOrder oid st (x_dex x) (Js.strOrNull (x_txHash x))
       (msgOrNull (x_error x)) (Js.numOrNull (x_executedPrice x)) w).

Lemma bind_emitF_running {B} fs oid st x (k : IO B) w :
  isTerminal st = false ->
  (emitStatusF fs oid st x;; k) w
  = match queryRejects fs with
    | Some e => (Throw e, w)
    | None => k (afterEmit oid st x w)
    end.
Proof.
  intros Hst. unfold emitStatusF, afterEmit, mbind, IO_bind, getWorld, await,
    act, throw. simpl. rewrite Hst.
  destruct (queryRejects fs); reflexivity.
Qed.

Lemma bind_emitF_terminal {B} fs oid st x (k : IO B) w :
  isTerminal st = true ->
  (emitStatusF fs oid st x;; k) w
  = match queryRejects fs with
    | Some e => (Throw e, w)
    | None =>
        match sRemRejects fs with
        | Some e => (Throw e, afterSent oid st x w)
        | None => k (afterEmit oid st x w)
        end
    end.
Proof.
  intros Hst. unfold emitStatusF, afterEmit, afterSent, mbind, IO_bind,
    getWorld, await, act, throw. simpl. rewrite Hst.
  destruct (queryRejects fs); [reflexivity|].
  destruct (sRemRejects fs); reflexivity.
Qed.

Section AttemptF.

Variable dexRouter : DexRouter.
Variable faults : OrderStatus -> Faults.
Variable job : OrderJobData.
Variable w : World.

(** The world when the removal from the active set rejects after the
    [confirmed] row is written and the event sent. *)
Definition afterConfirmedSent : World :=
  afterSent (orderId job) confirmed (confirmedExtra dexRouter job)
    (afterSubmitted dexRouter job w).

Definition attemptReturn : JobReturn :=
  {| r_dex := chosen dexRouter job;
     r_txHash := txHash (settled dexRouter job);
     r_executedPrice := executedPrice (settled dexRouter job) |}.

(** The ways an attempt can end, rejections included. *)
Lemma processorF_run :
  processorF dexRouter faults job w
  = match queryRejects (faults routing) with
    | Some e => (Throw e, w)
    | None =>
    match queryRejects (faults building) with
    | Some e => (Throw e, afterRouting dexRouter job w)
    | None =>
    if negb (String.eqb (type job) "market")
    then (Throw (Error (Text "Unsupported order type")),
          afterBuilding dexRouter job w)
    else
    match queryRejects (faults submitted) with
    | Some e => (Throw e, afterBuilding dexRouter job w)
    | None =>
    if Js.gt (slippage dexRouter job) allowedSlippage
    then (Throw (Error (SlippageTooHigh (slippage dexRouter job)
                          allowedSlippage)),
          afterSubmitted dexRouter job w)
    else
    match queryRejects (faults confirmed) with
    | Some e => (Throw e, afterSubmitted dexRouter job w)
    | None =>
    match sRemRejects (faults confirmed) with
    | Some e => (Throw e, afterConfirmedSent)
    | None => (Ok attemptReturn, afterConfirmed dexRouter job w)
    end end end end end.
Proof.
  unfold afterConfirmedSent, attemptReturn, afterConfirmed, afterSubmitted,
    afterBuilding, afterRouting, confirmedExtra, slippage, settled,
    chosenQuote, chosen, quoteR, quoteM.
  unfold processorF. cbv zeta.
  rewrite bind_emitF_running by reflexivity.
  destruct (queryRejects (faults routing)); [reflexivity|].
  rewrite bind_act, bind_emitF_running by reflexivity.
  destruct (queryRejects (faults building)); [reflexivity|].
  destruct (negb (String.eqb (type job) "market")); [reflexivity|].
  rewrite bind_emitF_running by reflexivity.
  destruct (queryRejects (faults submitted)); [reflexivity|].
  match goal with |- context [Js.gt ?a ?b] => destruct (Js.gt a b) end;
    [reflexivity|].
  rewrite bind_emitF_terminal by reflexivity.
  destruct (queryRejects (faults confirmed)); [reflexivity|].
  destruct (sRemRejects (faults confirmed)); reflexivity.
Qed.

End AttemptF.

(** Without rejections the processor is the one of the worker. *)
Lemma processorF_noFaults dexRouter job w :
  processorF dexRouter (fun _ => noFaults) job w = processor dexRouter job w.
Proof. rewrite processorF_run, processor_run. reflexivity. Qed.

(** ** A retried order, on the router of the source *)

Definition sampleUuid : string := "5b6f2ac2-c4ea-4abb-bbaa-d0520f488df9".

Definition connectionLost : JsError := Error (Text "Connection is closed.").

(** Rejections of one attempt: the removal from the active set rejects
    when [confirmed] is emitted. *)
Definition sRemFails (st : OrderStatus) : Faults :=
  match st with
  | confirmed => {| queryRejects := None; sRemRejects := Some connectionLost |}
  | _ => noFaults
  end.


(** The first attempt draws quotes that favour raydium and loses the
    connection to the active set at the end; the retry draws quotes that
    favour meteora and meets no rejection. *)
Definition retriedOnce (n : nat) : AttemptEnv :=
  match n with
  | O => {| env_router := mockDexRouter 0.9 0.1 0.5 "11111111-aaaa";
            env_faults := sRemFails |}
  | S _ => {| env_router := mockDexRouter 0.1 0.9 0.5 "22222222-bbbb";
              env_faults := fun _ => noFaults |}
  end.



Lemma afterSent_trace oid st x w :
  trace (afterSent oid st x w)
  = trace w
    ++ updateOf oid st x
       :: map (fun s => WsSend s (eventOf oid st x (clock w)))
            (openSockets w (subscribers w oid)).
Proof.
  unfold afterSent. rewrite publish_trace. simpl.
  unfold subscribers, openSockets. simpl. by rewrite <- app_assoc.
Qed.

Lemma afterSent_ledger oid st x w :
  ledger (afterSent oid st x w)
  = alter (rowAfter st x (clock w)) oid (ledger w).
Proof. unfold afterSent. by rewrite publish_ledger. Qed.









(** ** Retry exhaustion, on the router of the source *)



(** ** The last value supplied for a field *)

Definition suppliedVenue (oid : string) (e : Effect) : option DexName :=
  match e with
  | PgUpdate o _ d _ _ _ => if decide (o = oid) then d else None
  | _ => None
  end.

Definition suppliedHash (oid : string) (e : Effect) : option string :=
  match e with
  | PgUpdate o _ _ tx _ _ => if decide (o = oid) then tx else None
  | _ => None
  end.

Definition suppliedPrice (oid : string) (e : Effect) : option float :=
  match e with
  | PgUpdate o _ _ _ _ px => if decide (o = oid) then px else None
  | _ => None
  end.

(** The value of a column after the updates of [t], applied in order to a
    column holding [init]: the last value supplied, or [init] if none. *)
Definition lastSupplied {A} (supplied : Effect -> option A)
    (t : list Effect) (init : option A) : option A :=
  fold_left (fun acc e => coalesce (supplied e) acc) t init.

(** From [w] to [w'] the trace grew by effects that all satisfy [P], and
    the venue, hash and price of the row of [oid] are the last values the
    new updates supplied. *)
Definition runs (oid : string) (P : Effect -> Prop) (w w' : World) : Prop :=
  exists t,
    trace w' = trace w ++ t
    /\ Forall P t
    /\ forall row, ledger w !! oid = Some row ->
         exists row',
           ledger w' !! oid = Some row'
           /\ dex row' = lastSupplied (suppliedVenue oid) t (dex row)
           /\ tx_hash row' = lastSupplied (suppliedHash oid) t (tx_hash row)
           /\ executed_price row'
              = lastSupplied (suppliedPrice oid) t (executed_price row).

Lemma lastSupplied_app {A} (supplied : Effect -> option A) t1 t2 init :
  lastSupplied supplied (t1 ++ t2) init
  = lastSupplied supplied t2 (lastSupplied supplied t1 init).
Proof. apply fold_left_app. Qed.

Lemma lastSupplied_none {A} (supplied : Effect -> option A) t init :
  Forall (fun e => supplied e = None) t -> lastSupplied supplied t init = init.
Proof.
  revert init. induction t as [|e t IH]; intros init Hall; [done|].
  apply Forall_cons in Hall as [He Hall]. simpl. rewrite He. simpl.
  by apply IH.
Qed.

Lemma runs_refl oid P w : runs oid P w w.
Proof.
  exists []. rewrite app_nil_r. split; [done|]. split; [done|].
  intros row H. by exists row.
Qed.

Lemma runs_trans oid P w1 w2 w3 :
  runs oid P w1 w2 -> runs oid P w2 w3 -> runs oid P w1 w3.
Proof.
  intros (t1 & Ht1 & Hp1 & Hr1) (t2 & Ht2 & Hp2 & Hr2).
  exists (t1 ++ t2). split; [by rewrite Ht2, Ht1, app_assoc|].
  split; [by apply Forall_app|].
  intros row Hrow. destruct (Hr1 row Hrow) as (row2 & Hl2 & Hd2 & Hh2 & Hx2).
  destruct (Hr2 row2 Hl2) as (row3 & Hl3 & Hd3 & Hh3 & Hx3).
  exists row3. rewrite !lastSupplied_app, <- Hd2, <- Hh2, <- Hx2. done.
Qed.

Lemma runs_weaken oid (P Q : Effect -> Prop) w w' :
  (forall e, P e -> Q e) -> runs oid P w w' -> runs oid Q w w'.
Proof.
  intros HPQ (t & Ht & Hp & Hr). exists t. split; [done|].
  split; [|done]. eapply Forall_impl; eauto.
Qed.

(** Effects that are no ledger update. *)
Definition notUpdate (e : Effect) : Prop :=
  match e with
  | PgUpdate _ _ _ _ _ _ => False
  | _ => True
  end.

Lemma lastSupplied_notUpdate {A} (supplied : Effect -> option A) t init :
  (forall e, notUpdate e -> supplied e = None) ->
  Forall notUpdate t -> lastSupplied supplied t init = init.
Proof.
  intros Hs Hall. apply lastSupplied_none.
  eapply Forall_impl; [exact Hall|]. exact Hs.
Qed.

Lemma suppliedVenue_notUpdate oid e : notUpdate e -> suppliedVenue oid e = None.
Proof. by destruct e. Qed.

Lemma suppliedHash_notUpdate oid e : notUpdate e -> suppliedHash oid e = None.
Proof. by destruct e. Qed.

Lemma suppliedPrice_notUpdate oid e : notUpdate e -> suppliedPrice oid e = None.
Proof. by destruct e. Qed.

Lemma Forall_notUpdate_sends payload (sockets : list Socket) :
  Forall notUpdate (map (fun s => WsSend s payload) sockets).
Proof. apply Forall_fmap, Forall_forall. by intros s _. Qed.

Lemma runs_quiet oid (P : Effect -> Prop) w w' t :
  trace w' = trace w ++ t -> ledger w' = ledger w ->
  Forall notUpdate t -> (forall e, notUpdate e -> P e) ->
  runs oid P w w'.
Proof.
  intros Ht Hl Hq HP. exists t. split; [done|].
  split; [eapply Forall_impl; eauto|].
  intros row Hrow. exists row. rewrite Hl. split; [done|].
  rewrite !lastSupplied_notUpdate; auto using suppliedVenue_notUpdate,
    suppliedHash_notUpdate, suppliedPrice_notUpdate.
Qed.

Lemma runs_afterSent oid st x (P : Effect -> Prop) w :
  P (updateOf oid st x) -> (forall e, notUpdate e -> P e) ->
  runs oid P w (afterSent oid st x w).
Proof.
  intros Hu HP. eexists. split; [apply afterSent_trace|].
  split.
  { apply Forall_cons. split; [done|].
    eapply Forall_impl; [apply Forall_notUpdate_sends|]. exact HP. }
  intros row Hrow. exists (rowAfter st x (clock w) row).
  split; [rewrite afterSent_ledger; by apply lookup_alter_Some_row|].
  unfold lastSupplied. simpl. rewrite !decide_True by done.
  fold (lastSupplied (suppliedVenue oid)
          (map (fun s => WsSend s (eventOf oid st x (clock w)))
             (openSockets w (subscribers w oid)))
          (coalesce (x_dex x) (dex row))).
  fold (lastSupplied (suppliedHash oid)
          (map (fun s => WsSend s (eventOf oid st x (clock w)))
             (openSockets w (subscribers w oid)))
          (coalesce (Js.strOrNull (x_txHash x)) (tx_hash row))).
  fold (lastSupplied (suppliedPrice oid)
          (map (fun s => WsSend s (eventOf oid st x (clock w)))
             (openSockets w (subscribers w oid)))
          (coalesce (Js.numOrNull (x_executedPrice x))
             (executed_price row))).
  rewrite !lastSupplied_notUpdate;
    auto using suppliedVenue_notUpdate, suppliedHash_notUpdate,
      suppliedPrice_notUpdate, Forall_notUpdate_sends.
Qed.

Lemma afterEmit_afterSent oid st x w :
  afterEmit oid st x w
  = if isTerminal st then redisSRem oid (afterSent oid st x w)
    else afterSent oid st x w.
Proof. reflexivity. Qed.

Lemma runs_afterEmit oid st x (P : Effect -> Prop) w :
  P (updateOf oid st x) -> (forall e, notUpdate e -> P e) ->
  runs oid P w (afterEmit oid st x w).
Proof.
  intros Hu HP. rewrite afterEmit_afterSent.
  destruct (isTerminal st); [|by apply runs_afterSent].
  eapply runs_trans; [by apply runs_afterSent|].
  apply (runs_quiet oid P _ _ [RedisSRem oid]); try done.
  by apply Forall_singleton.
Qed.

Lemma runs_record oid (P : Effect -> Prop) es w :
  Forall notUpdate es -> (forall e, notUpdate e -> P e) ->
  runs oid P w (record es w).
Proof. intros Hq HP. by apply (runs_quiet oid P _ _ es). Qed.

(** The updates one attempt may make: for its own order, with no venue or
    the venue it chose, and with a hash and a price only when the status
    is [confirmed]. *)
Definition attemptEffect (oid : string) (venue : DexName)
    (hash : option string) (px : option float) (e : Effect) : Prop :=
  match e with
  | PgUpdate o st d tx _ p =>
      o = oid /\ (d = None \/ d = Some venue)
      /\ ((tx = None /\ p = None) \/ (st = confirmed /\ tx = hash /\ p = px))
  | _ => True
  end.

Lemma attemptEffect_notUpdate oid venue hash px e :
  notUpdate e -> attemptEffect oid venue hash px e.
Proof. by destruct e. Qed.

Definition settledHash (dexRouter : DexRouter) (job : OrderJobData)
    : option string :=
  Js.strOrNull (Some (txHash (settled dexRouter job))).

Definition settledPrice (dexRouter : DexRouter) (job : OrderJobData)
    : option float :=
  Js.numOrNull (Some (executedPrice (settled dexRouter job))).

Lemma processorF_runs dexRouter faults job w :
  runs (orderId job)
    (attemptEffect (orderId job) (chosen dexRouter job)
       (settledHash dexRouter job) (settledPrice dexRouter job))
    w (snd (processorF dexRouter faults job w)).
Proof.
  set (P := attemptEffect _ _ _ _).
  assert (HP : forall e, notUpdate e -> P e)
    by (intros e; apply attemptEffect_notUpdate).
  assert (H1 : runs (orderId job) P w (afterRouting dexRouter job w)).
  { unfold afterRouting.
    apply (runs_trans _ _ _ (afterEmit (orderId job) routing noExtra w)).
    - apply runs_afterEmit; [|done]. simpl. auto.
    - apply runs_record; [|done]. by apply Forall_singleton. }
  assert (H2 : runs (orderId job) P w (afterBuilding dexRouter job w)).
  { eapply runs_trans; [exact H1|]. unfold afterBuilding.
    apply runs_afterEmit; [|done]. simpl. auto. }
  assert (H3 : runs (orderId job) P w (afterSubmitted dexRouter job w)).
  { eapply runs_trans; [exact H2|]. unfold afterSubmitted.
    apply runs_afterEmit; [|done]. simpl. auto. }
  assert (Hc : P (updateOf (orderId job) confirmed
                    (confirmedExtra dexRouter job))).
  { simpl. split; [done|]. split; [by right|]. right. done. }
  assert (H4 : runs (orderId job) P w (afterConfirmedSent dexRouter job w)).
  { eapply runs_trans; [exact H3|]. unfold afterConfirmedSent.
    by apply runs_afterSent. }
  assert (H5 : runs (orderId job) P w (afterConfirmed dexRouter job w)).
  { eapply runs_trans; [exact H3|]. unfold afterConfirmed.
    by apply runs_afterEmit. }
  rewrite processorF_run.
  destruct (queryRejects (faults routing)); [apply runs_refl|].
  destruct (queryRejects (faults building)); [exact H1|].
  destruct (negb _); [exact H2|].
  destruct (queryRejects (faults submitted)); [exact H2|].
  match goal with |- context [Js.gt ?a ?b] => destruct (Js.gt a b) end;
    [exact H3|].
  destruct (queryRejects (faults confirmed)); [exact H3|].
  destruct (sRemRejects (faults confirmed)); [exact H4 | exact H5].
Qed.

Lemma onFailed_runs job err w :
  runs (orderId job) (fun _ => True) w (snd (onFailed (Some job) err w)).
Proof.
  rewrite onFailed_run. cbn [snd].
  apply (runs_trans _ _ _
           (record [LogFailed (orderId job) (message err)] w)).
  - apply runs_record; [by apply Forall_singleton|done].
  - by apply runs_afterEmit.
Qed.

Lemma runAttemptsF_runs retriesLeft : forall attemptsMade envs job w,
  runs (orderId job) (fun _ => True) w
    (snd (runAttemptsF retriesLeft attemptsMade envs job w)).
Proof.
  induction retriesLeft as [|k IH]; intros made envs job w;
    cbn [runAttemptsF];
    pose proof (runs_weaken _ _ (fun _ => True) _ _ (fun _ _ => I)
                  (processorF_runs (env_router (envs made))
                     (env_faults (envs made)) job w)) as Hp;
    destruct (processorF (env_router (envs made)) (env_faults (envs made))
                job w) as [[ret|e] w1];
    cbn [fst snd] in *; try exact Hp.
  - eapply runs_trans; [exact Hp|]. apply onFailed_runs.
  - eapply runs_trans; [exact Hp|].
    eapply runs_trans;
      [apply (runs_record (orderId job) (fun _ => True)
                [QueueBackoff (exponentialBackoff (S made))] w1);
       [by apply Forall_singleton|done]|].
    eapply runs_trans; [apply onFailed_runs|]. apply IH.
Qed.

(** ** Venue, hash and price of a retried order *)

Definition keepsHash (oid : string) (w w' : World) : Prop :=
  forall row row' h,
    ledger w !! oid = Some row -> tx_hash row = Some h ->
    ledger w' !! oid = Some row' -> tx_hash row' = Some h.

Definition keepsPrice (oid : string) (w w' : World) : Prop :=
  forall row row' p,
    ledger w !! oid = Some row -> executed_price row = Some p ->
    ledger w' !! oid = Some row' -> executed_price row' = Some p.

(** C6 as stated: a field that is set in [w] has the same value in the
    later world [w']. *)
Definition keepsSetFields (oid : string) (w w' : World) : Prop :=
  keepsVenue oid w w' /\ keepsHash oid w w' /\ keepsPrice oid w w'.

(** The world the handler leaves when it accepts the sample order. *)
Definition acceptedWorld : World :=
  setWaiting [] (snd (postExecute sampleUuid sampleBody emptyWorld)).

Definition acceptedJob : OrderJobData := newJob sampleUuid sampleBody.

(** The world the first attempt of the retried order leaves. *)
Definition afterFirstAttempt : World :=
  snd (processorF (env_router (retriedOnce 0)) (env_faults (retriedOnce 0))
         acceptedJob acceptedWorld).

Lemma retriedOnce_goes_through_first_attempt :
  runJobF retriedOnce acceptedJob acceptedWorld
  = runAttemptsF 1 1 retriedOnce acceptedJob
      (snd (onFailed (Some acceptedJob) connectionLost
              (record [QueueBackoff 500] afterFirstAttempt))).
Proof.
  unfold runJobF, afterFirstAttempt.
  change (attempts - 1)%nat with 2%nat. cbn [runAttemptsF].
  assert (H : fst (processorF (env_router (retriedOnce 0))
                     (env_faults (retriedOnce 0)) acceptedJob acceptedWorld)
              = Throw connectionLost) by (vm_compute; reflexivity).
  destruct (processorF (env_router (retriedOnce 0))
              (env_faults (retriedOnce 0)) acceptedJob acceptedWorld)
    as [r w1].
  cbn [fst snd] in *. subst r. reflexivity.
Qed.

(** C6, as stated, fails on an order created by the handler and run on the
    router of the source: the first attempt routes to raydium and writes
    venue, hash and price with [confirmed] before the removal from the
    active set rejects; the retry draws other quotes, routes to meteora and
    overwrites the venue (and, with them, the hash and the price). *)
Lemma retry_overwrites_set_fields :
  ~ keepsSetFields sampleUuid afterFirstAttempt
      (snd (runJobF retriedOnce acceptedJob acceptedWorld)).
Proof.
  intros [H _].
  set (w1 := afterFirstAttempt) in *.
  set (w2 := snd (runJobF retriedOnce acceptedJob acceptedWorld)) in *.
  assert (H1 : dex <$> ledger w1 !! sampleUuid = Some (Some raydium))
    by (vm_compute; reflexivity).
  assert (H2 : dex <$> ledger w2 !! sampleUuid = Some (Some meteora))
    by (vm_compute; reflexivity).
  clearbody w1 w2.
  destruct (ledger w1 !! sampleUuid) as [row|] eqn:E1; [|discriminate].
  destruct (ledger w2 !! sampleUuid) as [row'|] eqn:E2; [|discriminate].
  injection H1 as H1. injection H2 as H2.
  specialize (H row row' raydium E1 H1 E2). congruence.
Qed.

(** C6, amended. A transition writes venue, settlement identifier and
    realized price exactly when it supplies a value for them. So after the
    run of a job each of the three columns holds the last value that a
    transition of the run supplied for it (its previous value if none
    did), whether or not an earlier transition had written another value.
    Within one attempt every transition that supplies a venue supplies the
    venue this attempt chose, and the settlement identifier and the price
    are supplied by [confirmed] only, with this attempt's settlement. *)
Theorem fields_hold_last_supplied_value retriesLeft attemptsMade envs job w :
  runs (orderId job) (fun _ => True) w
    (snd (runAttemptsF retriesLeft attemptsMade envs job w))
  /\ forall dexRouter faults w0,
       runs (orderId job)
         (attemptEffect (orderId job) (chosen dexRouter job)
            (settledHash dexRouter job) (settledPrice dexRouter job))
         w0 (snd (processorF dexRouter faults job w0)).
Proof.
  split; [apply runAttemptsF_runs|].
  intros dexRouter faults w0. apply processorF_runs.
Qed.

Lemma fields_hold_last_supplied_value_witness :
  exists t row',
    trace (snd (runJobF retriedOnce acceptedJob acceptedWorld))
    = trace acceptedWorld ++ t
    /\ ledger (snd (runJobF retriedOnce acceptedJob acceptedWorld))
       !! sampleUuid = Some row'
    /\ dex row' = lastSupplied (suppliedVenue sampleUuid) t None.
Proof.
  destruct (proj1 (fields_hold_last_supplied_value 2 0 retriedOnce
                     acceptedJob acceptedWorld)) as (t & Ht & _ & Hrow).
  assert (Hl : ledger acceptedWorld !! orderId acceptedJob
               = Some (newRow sampleUuid sampleBody 0))
    by (vm_compute; reflexivity).
  destruct (Hrow _ Hl) as (row' & Hl' & Hd & _).
  exists t, row'. split; [exact Ht|]. split; [exact Hl' | exact Hd].
Defined.

(** * Symbols beyond ASCII

    A JavaScript string is a sequence of UTF-16 code units and
    [toUpperCase] follows Unicode. This section models the symbols made of
    the code units it covers: the ASCII range, U+00DF (sharp s, whose upper
    case is the two letters [SS]) and U+1E9E (capital sharp s, whose lower
    case is U+00DF). *)

Module Utf16.

Local Open Scope Z_scope.

Definition covered (c : Z) : bool :=
  ((0 <=? c) && (c <? 128)) || (c =? 223) || (c =? 7838).

(** [toUpperCase] of one covered code unit. *)
Definition upperUnit (c : Z) : list Z :=
  if (97 <=? c) && (c <=? 122) then [c - 32]
  else if c =? 223 then [83; 83]
  else [c].

(** [toLowerCase] of one covered code unit. *)
Definition lowerUnit (c : Z) : list Z :=
  if (65 <=? c) && (c <=? 90) then [c + 32]
  else if c =? 7838 then [223]
  else [c].

Definition toUpperCase (s : list Z) : list Z := flat_map upperUnit s.

Definition toLowerCase (s : list Z) : list Z := flat_map lowerUnit s.

Definition SOL : list Z := [83; 79; 76].

Definition WSOL : list Z := [87; 83; 79; 76].

Definition USDC : list Z := [85; 83; 68; 67].

Definition normalizeToken (symbol : list Z) : list Z :=
  if bool_decide (toUpperCase symbol = SOL) then WSOL
  else toUpperCase symbol.

(** The loop of [basePrice] over the code units of the key. *)
Definition pairHash (key : list Z) : Z :=
  fold_left MockDexRouter.hashStep key 0.

Definition basePrice (tokenIn tokenOut : list Z) : float :=
  let key := tokenIn ++ [45] ++ tokenOut in
  (1 + Js.ofZ (pairHash key mod 500) / 100)%float.

(** The base price used by the quotes for a pair of symbols. *)
Definition quotedBase (tokenIn tokenOut : list Z) : float :=
  basePrice (normalizeToken tokenIn) (normalizeToken tokenOut).

End Utf16.

(** C9 read on all symbols: two pairs whose symbols differ in letter case
    only (they have the same lower-case form) get the same base price. *)
Definition caseInvariantBase : Prop :=
  forall a a' b : list Z,
    Utf16.toLowerCase a = Utf16.toLowerCase a' ->
    Utf16.quotedBase a b = Utf16.quotedBase a' b.


(** C9, as stated for every pair of symbols, fails: the symbols U+00DF and
    U+1E9E differ in letter case only (both lower-case to U+00DF), but the
    first normalizes to [SS] and the second to itself, so against [USDC]
    they hash to the residues 142 and 264 and get the base prices 2.42 and
    3.64. *)
Lemma sharp_s_breaks_case_invariance : ~ caseInvariantBase.
Proof.
  intros H. specialize (H [223] [7838] Utf16.USDC eq_refl).
  assert (Hlt : PrimFloat.ltb (Utf16.quotedBase [223] Utf16.USDC)
                  (Utf16.quotedBase [7838] Utf16.USDC) = true)
    by (vm_compute; reflexivity).
  rewrite H in Hlt. vm_compute in Hlt. discriminate Hlt.
Qed.

(** ** ASCII symbols *)

Definition isAsciiChar (c : ascii) : bool := (nat_of_ascii c <? 128)%nat.

Fixpoint isAscii (s : string) : bool :=
  match s with
  | EmptyString => true
  | String c r => isAsciiChar c && isAscii r
  end.

Lemma charCodes_cons c r :
  Js.charCodes (String c r) = Z.of_nat (nat_of_ascii c) :: Js.charCodes r.
Proof. reflexivity. Qed.

Lemma charCodes_append s t :
  Js.charCodes (s ++ t)%string = Js.charCodes s ++ Js.charCodes t.
Proof.
  induction s as [|c s IH]; [reflexivity|].
  change (String c s ++ t)%string with (String c (s ++ t)%string).
  rewrite !charCodes_cons, IH. reflexivity.
Qed.

Lemma charCodes_inj s t : Js.charCodes s = Js.charCodes t -> s = t.
Proof.
  revert t. induction s as [|c s IH]; intros [|d t] H; try done.
  rewrite !charCodes_cons in H. injection H as Hc Hr.
  apply Nat2Z.inj in Hc.
  rewrite <- (ascii_nat_embedding c), <- (ascii_nat_embedding d), Hc.
  f_equal. by apply IH.
Qed.

Lemma upperUnit_ascii c :
  isAsciiChar c = true ->
  Utf16.upperUnit (Z.of_nat (nat_of_ascii c))
  = [Z.of_nat (nat_of_ascii (Js.upperChar c))].
Proof.
  destruct c as [[] [] [] [] [] [] [] []]; intros H;
    try discriminate H; reflexivity.
Qed.

Lemma charCodes_toUpperCase s :
  isAscii s = true ->
  Js.charCodes (Js.toUpperCase s) = Utf16.toUpperCase (Js.charCodes s).
Proof.
  induction s as [|c s IH]; intros H; [reflexivity|].
  simpl in H. apply andb_true_iff in H as [Hc Hs].
  change (Js.toUpperCase (String c s))
    with (String (Js.upperChar c) (Js.toUpperCase s)).
  rewrite !charCodes_cons. unfold Utf16.toUpperCase. simpl.
  rewrite (upperUnit_ascii c Hc). simpl. f_equal. by apply IH.
Qed.

Lemma charCodes_normalizeToken s :
  isAscii s = true ->
  Js.charCodes (MockDexRouter.normalizeToken s)
  = Utf16.normalizeToken (Js.charCodes s).
Proof.
  intros H. unfold MockDexRouter.normalizeToken, Utf16.normalizeToken.
  rewrite <- (charCodes_toUpperCase s H).
  destruct (String.eqb_spec (Js.toUpperCase s) "SOL") as [E|E].
  - rewrite E. reflexivity.
  - rewrite bool_decide_eq_false_2; [reflexivity|].
    intros Heq. apply E. by apply charCodes_inj.
Qed.

Lemma basePrice_charCodes a b :
  MockDexRouter.basePrice a b
  = Utf16.basePrice (Js.charCodes a) (Js.charCodes b).
Proof.
  unfold MockDexRouter.basePrice, Utf16.basePrice, MockDexRouter.pairHash,
    Utf16.pairHash. cbv zeta. by rewrite !charCodes_append.
Qed.

(** C9, amended. For every pair of ASCII token symbols: both quote
    operations multiply their noise with the same base price, which is the
    pair-hash price [1 + (hash mod 500) / 100] of the code units of the two
    symbols after upper-casing and after mapping [SOL] to [WSOL], whatever
    the random draw. Symbols that differ only in the case of their letters
    give the same base price and the same quotes, and a symbol that is
    [SOL] in any case gives the base price of [WSOL], on either side of the
    pair. (The pair WSOL/USDC has the base price 1.69 and the pair
    USDC/WSOL 4.73.) *)
Theorem ascii_basePrice_ignores_case_and_sol_alias
    (a a' b b' : string) (rnd amt : float) :
  isAscii a = true -> isAscii a' = true ->
  isAscii b = true -> isAscii b' = true ->
  caseVariant a a' = true -> caseVariant b b' = true ->
  let base :=
    MockDexRouter.basePrice (MockDexRouter.normalizeToken a)
      (MockDexRouter.normalizeToken b) in
  base = Utf16.quotedBase (Js.charCodes a) (Js.charCodes b)
  /\ Utf16.quotedBase (Js.charCodes a') (Js.charCodes b') = base
  /\ price (MockDexRouter.getRaydiumQuote rnd a b amt)
     = (base * (0.98 + rnd * 0.04))%float
  /\ price (MockDexRouter.getMeteorQuote rnd a b amt)
     = (base * (0.97 + rnd * 0.05))%float
  /\ MockDexRouter.getRaydiumQuote rnd a' b' amt
     = MockDexRouter.getRaydiumQuote rnd a b amt
  /\ MockDexRouter.getMeteorQuote rnd a' b' amt
     = MockDexRouter.getMeteorQuote rnd a b amt
  /\ (caseVariant a "SOL" = true ->
        MockDexRouter.normalizeToken a = "WSOL"
        /\ base = MockDexRouter.basePrice
                    (MockDexRouter.normalizeToken "WSOL")
                    (MockDexRouter.normalizeToken b))
  /\ (caseVariant b "SOL" = true ->
        MockDexRouter.normalizeToken b = "WSOL"
        /\ base = MockDexRouter.basePrice
                    (MockDexRouter.normalizeToken a)
                    (MockDexRouter.normalizeToken "WSOL"))
  /\ MockDexRouter.basePrice "WSOL" "USDC" = (1 + 69 / 100)%float
  /\ MockDexRouter.basePrice "USDC" "WSOL" = (1 + 373 / 100)%float.
Proof.
  intros Ha Ha' Hb Hb' Hca Hcb base.
  pose proof (basePrice_ignores_case_and_sol_alias a a' b b' rnd amt
                Hca Hcb) as (Hr & Hm & Hbase & Hqr & Hqm & Hsa & Hsb).
  assert (Hu : forall x y, isAscii x = true -> isAscii y = true ->
             MockDexRouter.basePrice (MockDexRouter.normalizeToken x)
               (MockDexRouter.normalizeToken y)
             = Utf16.quotedBase (Js.charCodes x) (Js.charCodes y)).
  { intros x y Hx Hy. rewrite basePrice_charCodes.
    rewrite (charCodes_normalizeToken x Hx), (charCodes_normalizeToken y Hy).
    reflexivity. }
  split; [by apply Hu|].
  split; [rewrite <- (Hu a' b' Ha' Hb'); exact Hbase|].
  split; [exact Hr|]. split; [exact Hm|]. split; [exact Hqr|].
  split; [exact Hqm|]. split; [exact Hsa|]. split; [exact Hsb|].
  split; vm_compute; reflexivity.
Qed.

Lemma ascii_basePrice_ignores_case_and_sol_alias_witness :
  MockDexRouter.basePrice (MockDexRouter.normalizeToken "sol")
    (MockDexRouter.normalizeToken "usdc")
  = Utf16.quotedBase (Js.charCodes "sol") (Js.charCodes "usdc")
  /\ MockDexRouter.getRaydiumQuote 0.5 "Sol" "uSdC" 1
     = MockDexRouter.getRaydiumQuote 0.5 "sol" "usdc" 1
  /\ MockDexRouter.normalizeToken "sol" = "WSOL".
Proof.
  pose proof (ascii_basePrice_ignores_case_and_sol_alias
                "sol" "Sol" "usdc" "uSdC" 0.5 1
                eq_refl eq_refl eq_refl eq_refl eq_refl eq_refl)
    as (Hu & _ & _ & _ & Hq & _ & Hsol & _).
  split; [exact Hu|]. split; [exact Hq | exact (proj1 (Hsol eq_refl))].
Defined.
